(** * ForPrompt Python SDK: a shallow embedding and its verified properties

    The development follows the layout of [packages/sdk-python/forprompt]:
    - [Types]   : [types.py]  (error codes, the error record, prompts, results);
    - [Re]      : the fragment of Python's [re] engine that [pii.py] relies on
                  (backtracking matcher, [findall], [sub], [search]), over
                  Unicode text;
    - [Pii]     : [pii.py]    (the pattern catalog, [redact_pii], [contains_pii]);
    - [Client]  : [client.py] (the retrying request executor, [get_prompt],
                  [get_prompts]);
    - [Logger]  : [logger.py] (trace state and [log]).

    Definitions come first; the theorems follow in the second half. *)

From Stdlib Require Import ZArith List Ascii String Bool Lia.
From stdpp Require Import gmap strings pretty.

Import ListNotations.
Local Open Scope list_scope.

(* ===================================================================== *)
(** * types.py *)
(* ===================================================================== *)

Module Types.

(** [class ErrorCode(str, Enum)] *)
Inductive ErrorCode :=
| MISSING_API_KEY
| INVALID_INPUT
| PROMPT_NOT_FOUND
| API_ERROR
| TIMEOUT
| NETWORK_ERROR
| SERVER_ERROR
| RETRY_EXHAUSTED
| LOG_ERROR.

(** A Python [str]: a sequence of Unicode code points.  Identifiers, keys
    and the fixed texts of the SDK are written as string literals; [text]
    reads one as the [str] of its characters. *)
Definition pystr := list N.

Definition text (s : string) : pystr :=
  map N_of_ascii (list_ascii_of_string s).

Coercion text : string >-> pystr.

(** Python values that travel through the SDK: decoded JSON bodies, payloads,
    metadata, and loosely typed arguments.  [JNull] is Python's [None]; a
    [JDict] keeps its items in insertion order. *)
#[warnings="-register-all"]
Inductive json :=
| JNull
| JBool (b : bool)
| JInt (z : Z)
| JFloat (repr : string)
| JStr (s : pystr)
| JList (l : list json)
| JDict (items : list (string * json)).

(** The value of a string of the SDK (an identifier, a summary). *)
Definition jstr (s : string) : json := JStr s.

(** [d.get(k)], as an option. *)
Fixpoint dict_get (k : string) (items : list (string * json)) : option json :=
  match items with
  | [] => None
  | (k', v) :: rest => if String.eqb k k' then Some v else dict_get k rest
  end.

(** [d[k] = v]: overwrite in place, or append a new item. *)
Fixpoint dict_set (k : string) (v : json) (items : list (string * json))
  : list (string * json) :=
  match items with
  | [] => [(k, v)]
  | (k', v') :: rest =>
      if String.eqb k k' then (k, v) :: rest else (k', v') :: dict_set k v rest
  end.

(** [class ForPromptError(Exception)]: message, status_code, code. *)
Record ForPromptError := mkError {
  message : json;
  status_code : Z;
  code : ErrorCode
}.

(** What a Python call can raise here: a [ForPromptError], or an exception
    of another class ([KeyError], [TypeError], [AttributeError], a JSON
    decoding error) that no handler of the SDK names. *)
Inductive exn :=
| EForPrompt (e : ForPromptError)
| EOther (class_name : string).

Inductive result (A : Type) :=
| Ok (a : A)
| Raise (e : exn).
Arguments Ok {A} a.
Arguments Raise {A} e.

(** [@dataclass class Prompt] *)
Record Prompt := mkPrompt {
  key : json;
  name : json;
  version_number : json;
  system_prompt : json;
  updated_at : json;
  description : json;
  purpose : json;
  expected_behavior : json;
  input_format : json;
  output_format : json;
  constraints : json;
  use_cases : json;
  additional_notes : json;
  tools_notes : json
}.

(** [data[k]]: [KeyError] when the key is missing. *)
Definition dict_item (k : string) (items : list (string * json)) : result json :=
  match dict_get k items with
  | Some v => Ok v
  | None => Raise (EOther "KeyError")
  end.

(** [data.get(k)]: [None] when the key is missing. *)
Definition dict_get_none (k : string) (items : list (string * json)) : json :=
  match dict_get k items with
  | Some v => v
  | None => JNull
  end.

(** [Prompt.from_dict] *)
Definition from_dict (data : json) : result Prompt :=
  match data with
  | JDict d =>
      match dict_item "key" d with
      | Raise e => Raise e
      | Ok k =>
      match dict_item "name" d with
      | Raise e => Raise e
      | Ok n =>
      match dict_item "versionNumber" d with
      | Raise e => Raise e
      | Ok vn =>
      match dict_item "systemPrompt" d with
      | Raise e => Raise e
      | Ok sp =>
      match dict_item "updatedAt" d with
      | Raise e => Raise e
      | Ok ua =>
          Ok {| key := k; name := n; version_number := vn;
                system_prompt := sp; updated_at := ua;
                description := dict_get_none "description" d;
                purpose := dict_get_none "purpose" d;
                expected_behavior := dict_get_none "expectedBehavior" d;
                input_format := dict_get_none "inputFormat" d;
                output_format := dict_get_none "outputFormat" d;
                constraints := dict_get_none "constraints" d;
                use_cases := dict_get_none "useCases" d;
                additional_notes := dict_get_none "additionalNotes" d;
                tools_notes := dict_get_none "toolsNotes" d |}
      end end end end end
  | _ => Raise (EOther "TypeError")
  end.

(** [@dataclass class PIIRedactionConfig] *)
Record PIIRedactionConfig := mkPIIConfig {
  enabled : bool;
  patterns : option (list string);
  log_stats : bool
}.

(** [@dataclass class PIIRedactionResult] *)
Record PIIRedactionResult := mkPIIResult {
  redacted : pystr;
  redactions : list string;
  counts : gmap string nat;
  has_pii : bool
}.

End Types.

(* ===================================================================== *)
(** * The fragment of Python's [re] used by pii.py *)
(* ===================================================================== *)

Module Re.
Import Types.

(** A text is a Python [str]: a list of code points.  On ASCII, [\w] and
    [\s] are the classes of Python's [re] for [str] patterns.  Outside
    ASCII they are read from the interpreter's Unicode database, which is
    no part of the SDK: the tables are a parameter of the engine. *)
Class unicode := {
  uni_word : N -> bool;
  uni_space : N -> bool
}.

Definition ord (c : ascii) : N := N_of_ascii c.

Definition in_range (lo hi n : N) : bool := ((lo <=? n) && (n <=? hi))%N.

(** [[0-9A-Za-z_]] and [[\t\n\v\f\r\x1c-\x1f ]]. *)
Definition ascii_word (n : N) : bool :=
  in_range 48 57 n || in_range 65 90 n || in_range 95 95 n
  || in_range 97 122 n.

Definition ascii_space (n : N) : bool :=
  in_range 9 13 n || in_range 28 32 n.

(** The tables of Python 3 on the Latin-1 supplement, with nothing above
    it: the tables of the sample runs. *)
Definition latin1 : unicode :=
  {| uni_word := fun n =>
       in_range 170 170 n || in_range 178 179 n || in_range 181 181 n
       || in_range 185 186 n || in_range 188 190 n || in_range 192 214 n
       || in_range 216 246 n || in_range 248 255 n;
     uni_space := fun n => in_range 133 133 n || in_range 160 160 n |}.

(** One item of a bracketed class: a literal, a range [lo-hi], or [\s].
    The patterns of pii.py are written with ASCII characters. *)
Inductive citem :=
| Lit (c : ascii)
| Rng (lo hi : ascii)
| Spc.

(** Regular expressions.  Unbounded repetition only occurs on character
    classes in the catalog ([Many cls] is the greedy [cls*]); counted
    repetitions and [?] are the derived forms below. *)
Inductive regex :=
| Eps
| Chr (cls : list citem)
| Seq (r1 r2 : regex)
| Alt (r1 r2 : regex)
| Many (cls : list citem)
| WordB.

(** [r?], greedy. *)
Definition opt (r : regex) : regex := Alt r Eps.

(** [r{n}] *)
Fixpoint rep (n : nat) (r : regex) : regex :=
  match n with
  | O => Eps
  | S k => Seq r (rep k r)
  end.

(** [r{0,n}], greedy: as many as possible first. *)
Fixpoint upto (n : nat) (r : regex) : regex :=
  match n with
  | O => Eps
  | S k => opt (Seq r (upto k r))
  end.

(** [r{m,n}] *)
Definition range (m n : nat) (r : regex) : regex :=
  Seq (rep m r) (upto (n - m) r).

(** [cls{n,}] *)
Definition at_least (n : nat) (cls : list citem) : regex :=
  Seq (rep n (Chr cls)) (Many cls).

(** A literal character. *)
Definition lit (c : ascii) : regex := Chr [Lit c].

(** Concatenation of a list of pieces. *)
Definition seqs (rs : list regex) : regex := fold_right Seq Eps rs.

Section Engine.
Context {U : unicode}.

Definition is_word (c : N) : bool :=
  if (c <? 128)%N then ascii_word c else uni_word c.

Definition is_space (c : N) : bool :=
  if (c <? 128)%N then ascii_space c else uni_space c.

Definition in_item (c : N) (i : citem) : bool :=
  match i with
  | Lit d => N.eqb c (ord d)
  | Rng lo hi => in_range (ord lo) (ord hi) c
  | Spc => is_space c
  end.

Definition in_class (cls : list citem) (c : N) : bool :=
  existsb (in_item c) cls.

(** Word status of the character after the current position ([false] at
    the end of the text), and of the last character of [u] read after a
    character of status [pw]. *)
Definition firstw (u : pystr) (nw : bool) : bool :=
  match u with
  | [] => nw
  | c :: _ => is_word c
  end.

Definition hdw (s : pystr) : bool := firstw s false.

Definition lastw (pw : bool) (u : pystr) : bool :=
  fold_left (fun _ c => is_word c) u pw.

(** Greedy [cls*] from a position: the longest run first, then shorter. *)
Fixpoint many (cls : list citem) (pw : bool) (s : pystr)
  : list (bool * pystr) :=
  match s with
  | c :: s' =>
      if in_class cls c then many cls (is_word c) s' ++ [(pw, s)]
      else [(pw, s)]
  | [] => [(pw, s)]
  end.

(** The backtracking matcher.  A position is the word status [pw] of the
    character before it and the rest [s] of the text.  [run r pw s] lists
    the positions where a match of [r] starting here can end, in the order
    in which the engine tries them; the engine's match is the first. *)
Fixpoint run (r : regex) (pw : bool) (s : pystr)
  : list (bool * pystr) :=
  match r with
  | Eps => [(pw, s)]
  | Chr cls =>
      match s with
      | c :: s' => if in_class cls c then [(is_word c, s')] else []
      | [] => []
      end
  | Seq r1 r2 => flat_map (fun p => run r2 (fst p) (snd p)) (run r1 pw s)
  | Alt r1 r2 => run r1 pw s ++ run r2 pw s
  | Many cls => many cls pw s
  | WordB => if xorb pw (hdw s) then [(pw, s)] else []
  end.

(** [pattern.search(text)] as a truth value: does a match start at this
    position or at a later one? *)
Fixpoint search_from (r : regex) (pw : bool) (s : pystr) : bool :=
  match run r pw s with
  | _ :: _ => true
  | [] =>
      match s with
      | [] => false
      | c :: s' => search_from r (is_word c) s'
      end
  end.

Definition search (r : regex) (s : pystr) : bool := search_from r false s.

(** The left-to-right scan shared by [findall] and [sub]: at each position
    take the engine's match if there is one and resume where it ends; an
    empty match is taken and the scan moves on by one character.  [fuel]
    bounds the number of positions visited. *)
Fixpoint findall_from (fuel : nat) (r : regex) (pw : bool) (s : pystr)
  : list pystr :=
  match fuel with
  | O => []
  | S fuel' =>
      match run r pw s with
      | (pw', s') :: _ =>
          if (length s' <? length s)%nat
          then firstn (length s - length s') s :: findall_from fuel' r pw' s'
          else [] :: match s with
                     | [] => []
                     | c :: s'' => findall_from fuel' r (is_word c) s''
                     end
      | [] =>
          match s with
          | [] => []
          | c :: s'' => findall_from fuel' r (is_word c) s''
          end
      end
  end.

Fixpoint sub_from (fuel : nat) (r : regex) (repl : pystr) (pw : bool)
  (s : pystr) : pystr :=
  match fuel with
  | O => s
  | S fuel' =>
      match run r pw s with
      | (pw', s') :: _ =>
          if (length s' <? length s)%nat
          then repl ++ sub_from fuel' r repl pw' s'
          else repl ++ match s with
                       | [] => []
                       | c :: s'' => c :: sub_from fuel' r repl (is_word c) s''
                       end
      | [] =>
          match s with
          | [] => []
          | c :: s'' => c :: sub_from fuel' r repl (is_word c) s''
          end
      end
  end.

(** [pattern.findall(text)] (no pattern of the catalog has a capturing
    group, so the items are the whole matches) and
    [pattern.sub(repl, text)]. *)
Definition findall (r : regex) (s : pystr) : list pystr :=
  findall_from (S (length s)) r false s.

Definition sub (r : regex) (repl : pystr) (s : pystr) : pystr :=
  sub_from (S (length s)) r repl false s.

End Engine.

End Re.

(* ===================================================================== *)
(** * pii.py *)
(* ===================================================================== *)

Module Pii.
Import Types Re.

(** The character classes the catalog is written with. *)
Definition digit : list citem := [Rng "0" "9"].
Definition alpha : list citem := [Rng "a" "z"; Rng "A" "Z"].
Definition hex : list citem := [Rng "0" "9"; Rng "a" "f"; Rng "A" "F"].
Definition email_local : list citem :=
  [Rng "a" "z"; Rng "A" "Z"; Rng "0" "9";
   Lit "."; Lit "_"; Lit "%"; Lit "+"; Lit "-"].
Definition email_domain : list citem :=
  [Rng "a" "z"; Rng "A" "Z"; Rng "0" "9"; Lit "."; Lit "-"].
Definition dash_dot_space : list citem := [Lit "-"; Lit "."; Spc].
Definition dash_space : list citem := [Lit "-"; Spc].

(** [[a-zA-Z0-9._%+-]+@[a-zA-Z0-9.-]+\.[a-zA-Z]{2,}] *)
Definition email_re : regex :=
  seqs [at_least 1 email_local; lit "@"; at_least 1 email_domain; lit ".";
        at_least 2 alpha].

(** [(?:\+?1[-.\s]?)?\(?[0-9]{3}\)?[-.\s]?[0-9]{3}[-.\s]?[0-9]{4}] *)
Definition phone_re : regex :=
  seqs [opt (seqs [opt (lit "+"); lit "1"; opt (Chr dash_dot_space)]);
        opt (lit "("); rep 3 (Chr digit); opt (lit ")");
        opt (Chr dash_dot_space); rep 3 (Chr digit);
        opt (Chr dash_dot_space); rep 4 (Chr digit)].

(** [\b[0-9]{3}[-\s]?[0-9]{2}[-\s]?[0-9]{4}\b] *)
Definition ssn_re : regex :=
  Seq WordB (Seq
    (seqs [rep 3 (Chr digit); opt (Chr dash_space); rep 2 (Chr digit);
           opt (Chr dash_space); rep 4 (Chr digit)])
    WordB).

(** [\b(?:4[0-9]{12}(?:[0-9]{3})?|5[1-5][0-9]{14}|3[47][0-9]{13}|
       6(?:011|5[0-9][0-9])[0-9]{12})\b] *)
Definition credit_card_re : regex :=
  Seq WordB (Seq
    (Alt (seqs [lit "4"; rep 12 (Chr digit); opt (rep 3 (Chr digit))])
    (Alt (seqs [lit "5"; Chr [Rng "1" "5"]; rep 14 (Chr digit)])
    (Alt (seqs [lit "3"; Chr [Lit "4"; Lit "7"]; rep 13 (Chr digit)])
         (seqs [lit "6";
                Alt (seqs [lit "0"; lit "1"; lit "1"])
                    (seqs [lit "5"; Chr digit; Chr digit]);
                rep 12 (Chr digit)]))))
    WordB).

(** [\b(?:4[0-9]{3}|5[1-5][0-9]{2}|3[47][0-9]{2}|6(?:011|5[0-9]{2}))
       [-\s]?[0-9]{4}[-\s]?[0-9]{4}[-\s]?[0-9]{4}\b] *)
Definition credit_card_formatted_re : regex :=
  Seq WordB (Seq
    (seqs [Alt (seqs [lit "4"; rep 3 (Chr digit)])
          (Alt (seqs [lit "5"; Chr [Rng "1" "5"]; rep 2 (Chr digit)])
          (Alt (seqs [lit "3"; Chr [Lit "4"; Lit "7"]; rep 2 (Chr digit)])
               (seqs [lit "6";
                      Alt (seqs [lit "0"; lit "1"; lit "1"])
                          (seqs [lit "5"; rep 2 (Chr digit)])])));
           opt (Chr dash_space); rep 4 (Chr digit);
           opt (Chr dash_space); rep 4 (Chr digit);
           opt (Chr dash_space); rep 4 (Chr digit)])
    WordB).

(** [\b(?:[0-9]{1,3}\.){3}[0-9]{1,3}\b] *)
Definition ip_v4_re : regex :=
  Seq WordB (Seq
    (seqs [rep 3 (seqs [range 1 3 (Chr digit); lit "."]);
           range 1 3 (Chr digit)])
    WordB).

(** [\b(?:[0-9a-fA-F]{1,4}:){7}[0-9a-fA-F]{1,4}\b] *)
Definition ip_v6_re : regex :=
  Seq WordB (Seq
    (seqs [rep 7 (seqs [range 1 4 (Chr hex); lit ":"]);
           range 1 4 (Chr hex)])
    WordB).

(** [PII_PATTERNS]: (name, pattern, replacement), in catalog order. *)
Definition PII_PATTERNS : list (string * regex * string) :=
  [ ("email", email_re, "[EMAIL_REDACTED]");
    ("phone", phone_re, "[PHONE_REDACTED]");
    ("ssn", ssn_re, "[SSN_REDACTED]");
    ("credit_card", credit_card_re, "[CC_REDACTED]");
    ("credit_card_formatted", credit_card_formatted_re, "[CC_REDACTED]");
    ("ip_v4", ip_v4_re, "[IP_REDACTED]");
    ("ip_v6", ip_v6_re, "[IP_REDACTED]") ]%string.

(** [get_available_patterns] *)
Definition get_available_patterns : list string :=
  map (fun p => fst (fst p)) PII_PATTERNS.

(** [name in names] on a list of strings. *)
Definition name_in (n : string) (names : list string) : bool :=
  existsb (String.eqb n) names.

(** [patterns = PII_PATTERNS; if selected: patterns = [p for p in
    PII_PATTERNS if p[0] in selected]]: [None] and the empty list are both
    falsy. *)
Definition select_patterns (selected : option (list string))
  : list (string * regex * string) :=
  match selected with
  | None | Some [] => PII_PATTERNS
  | Some names => List.filter (fun p => name_in (fst (fst p)) names) PII_PATTERNS
  end.

(** The local variables of the loop of [redact_pii]. *)
Record loop_state := mkLoop {
  l_result : pystr;
  l_redactions : list string;
  l_counts : gmap string nat
}.

(** [f"{name}: {count} instance(s)"] *)
Definition summary (name : string) (count : nat) : string :=
  (name +:+ ": " +:+ pretty count +:+ " instance(s)")%string.

Definition default_config : PIIRedactionConfig :=
  {| enabled := true; patterns := None; log_stats := false |}.

(** [', '.join(redactions)] *)
Fixpoint join_comma (l : list string) : string :=
  match l with
  | [] => ""
  | [x] => x
  | x :: rest => (x +:+ ", " +:+ join_comma rest)%string
  end.

Section Redaction.
Context {U : unicode}.

(** One iteration of [for name, pattern, replacement in patterns]. *)
Definition apply_pattern (st : loop_state) (p : string * regex * string)
  : loop_state :=
  let '(name, pattern, replacement) := p in
  let matches := findall pattern (l_result st) in
  match matches with
  | [] => st
  | _ :: _ =>
      let count := length matches in
      {| l_result := sub pattern (text replacement) (l_result st);
         l_redactions := l_redactions st ++ [summary name count];
         l_counts := <[name := count]> (l_counts st) |}
  end.

(** [redact_pii], with the lines it prints. *)
Definition redact_pii_io (content : pystr) (config : option PIIRedactionConfig)
  : PIIRedactionResult * list string :=
  let config := match config with Some c => c | None => default_config end in
  if negb (enabled config) then
    ({| redacted := content; redactions := []; counts := ∅; has_pii := false |},
     [])
  else
    let st := fold_left apply_pattern (select_patterns (patterns config))
                {| l_result := content; l_redactions := [];
                   l_counts := ∅ |} in
    let has := (0 <? length (l_redactions st))%nat in
    ({| redacted := l_result st;
        redactions := l_redactions st;
        counts := l_counts st;
        has_pii := has |},
     if has && log_stats config
     then [("PII redaction: " +:+ join_comma (l_redactions st))%string]
     else []).

Definition redact_pii (content : pystr) (config : option PIIRedactionConfig)
  : PIIRedactionResult :=
  fst (redact_pii_io content config).

(** [contains_pii] *)
Definition contains_pii (content : pystr) (selected : option (list string))
  : bool :=
  existsb (fun p => search (snd (fst p)) content)
          (select_patterns selected).

End Redaction.

End Pii.

(* ===================================================================== *)
(** * The outside world: httpx, time.sleep, uuid and os.environ *)
(* ===================================================================== *)

Module Net.
Import Types.

(** What [httpx.Client(timeout=...).request(...)] is called with. *)
Record Request := mkRequest {
  req_method : string;
  req_url : string;
  req_headers : list (string * string);
  req_params : option (list (string * string));
  req_json : option json;
  req_timeout : string
}.

(** A response: its status code and what [response.json()] decodes
    ([None] when the body is not JSON and [json()] raises). *)
Record Response := mkResponse {
  resp_status : Z;
  resp_body : option json
}.

(** The outcome of one network call: a response, [httpx.TimeoutException],
    or another [httpx.RequestError] (connection refused, reset, DNS), each
    exception with its [str(e)]. *)
Inductive Outcome :=
| Responded (r : Response)
| TimeoutException (msg : string)
| RequestError (msg : string).

(** The transport answers the [n]-th call issued so far ([n] from 0). *)
Definition Transport := nat -> Request -> Outcome.

(** The effects a run leaves behind: the requests issued, the backoff
    sleeps taken (each delay recorded by the attempt index it was computed
    from), and the number of identifiers drawn from [uuid.uuid4]. *)
Record World := mkWorld {
  calls : list Request;
  sleeps : list nat;
  uuids : nat
}.

Definition world0 : World := {| calls := []; sleeps := []; uuids := 0 |}.

Definition issue (t : Transport) (req : Request) (w : World) : Outcome * World :=
  (t (length (calls w)) req,
   {| calls := calls w ++ [req]; sleeps := sleeps w; uuids := uuids w |}).

(** [time.sleep(delay)] *)
Definition sleep (delay : nat) (w : World) : World :=
  {| calls := calls w; sleeps := sleeps w ++ [delay]; uuids := uuids w |}.

(** [str(uuid.uuid4())], drawn from a supply [gen]. *)
Definition uuid4 (gen : nat -> string) (w : World) : string * World :=
  (gen (uuids w),
   {| calls := calls w; sleeps := sleeps w; uuids := S (uuids w) |}).

(** [response.is_success] *)
Definition is_success (status : Z) : bool :=
  ((200 <=? status) && (status <=? 299))%Z.

(** [a or b] on an optional string: [None] and the empty string are falsy. *)
Definition or_str (a : option string) (b : string) : string :=
  match a with
  | Some EmptyString => b
  | Some s => s
  | None => b
  end.

(** [s.rstrip("/")] *)
Fixpoint drop_slashes (l : list ascii) : list ascii :=
  match l with
  | c :: rest => if Ascii.eqb c "/" then drop_slashes rest else l
  | [] => []
  end.

Definition rstrip_slash (s : string) : string :=
  string_of_list_ascii (rev (drop_slashes (rev (list_ascii_of_string s)))).

(** [os.environ.get(k, default)] *)
Definition environ_get (environ : gmap string string) (k default : string)
  : string :=
  match environ !! k with
  | Some v => v
  | None => default
  end.

Definition missing_api_key (msg : string) : ForPromptError :=
  {| message := JStr msg; status_code := 401; code := MISSING_API_KEY |}.

End Net.

(* ===================================================================== *)
(** * client.py *)
(* ===================================================================== *)

Module Client.
Import Types Net.

Definition DEFAULT_BASE_URL : string := "https://forprompt.dev".
Definition DEFAULT_TIMEOUT : string := "30.0".
Definition DEFAULT_RETRIES : Z := 3.

(** The attributes of a [ForPrompt] client.  [timeout] is a float that the
    executor only hands to the transport and prints: it is kept as Python
    prints it. *)
Record ForPrompt := mkForPrompt {
  api_key : string;
  base_url : string;
  timeout : string;
  retries : Z;
  redact_pii_enabled : bool
}.

(** [ForPrompt.__init__] *)
Definition init (environ : gmap string string) (api_key base_url : option string)
  (timeout : string) (retries : Z) (redact_pii : bool) : result ForPrompt :=
  let k := or_str api_key (environ_get environ "FORPROMPT_API_KEY" "") in
  let u := rstrip_slash
             (or_str base_url
                (environ_get environ "FORPROMPT_BASE_URL" DEFAULT_BASE_URL)) in
  if String.eqb k "" then
    Raise (EForPrompt (missing_api_key
      ("API key is required. Set FORPROMPT_API_KEY environment variable "
       +:+ "or pass api_key parameter.")))
  else
    Ok {| api_key := k; base_url := u; timeout := timeout; retries := retries;
          redact_pii_enabled := redact_pii |}.

Definition timeout_error (self : ForPrompt) : ForPromptError :=
  {| message := JStr ("Request timeout after " +:+ timeout self +:+ "s");
     status_code := 408; code := TIMEOUT |}.

Definition network_error (msg : string) : ForPromptError :=
  {| message := JStr msg; status_code := 0; code := NETWORK_ERROR |}.

Definition server_error (status : Z) : ForPromptError :=
  {| message := JStr ("Server error: " +:+ pretty status);
     status_code := status; code := SERVER_ERROR |}.

Definition retry_exhausted : ForPromptError :=
  {| message := JStr "Request failed after retries";
     status_code := 500; code := RETRY_EXHAUSTED |}.

(** The 4xx branch: [error_data = response.json()], falling back to
    [{"error": "Unknown error"}] when decoding fails; then
    [error_data.get("error", f"HTTP {status}")], which raises
    [AttributeError] when the decoded body is not an object. *)
Definition client_error (r : Response) : exn :=
  let error_data :=
    match resp_body r with
    | Some j => j
    | None => JDict [("error", JStr "Unknown error")]
    end in
  match error_data with
  | JDict d =>
      EForPrompt
        {| message := match dict_get "error" d with
                      | Some m => m
                      | None => JStr ("HTTP " +:+ pretty (resp_status r))
                      end;
           status_code := resp_status r;
           code := if (resp_status r =? 404)%Z then PROMPT_NOT_FOUND
                   else API_ERROR |}
  | _ => EOther "AttributeError"
  end.

(** [raise last_error or ForPromptError(..., RETRY_EXHAUSTED)] *)
Definition final_error (last_error : option ForPromptError) : ForPromptError :=
  match last_error with
  | Some e => e
  | None => retry_exhausted
  end.

(** [_get_backoff_delay(attempt)].  The delay is
    [min(2 ** attempt + jitter, 30.0)] for a random [jitter]; it is told
    apart by the attempt index it is computed from.  The sum converts the
    integer [2 ** attempt] to a float, which raises [OverflowError] from
    [2 ** 1024] on. *)
Definition _get_backoff_delay (attempt : nat) : result nat :=
  if (1024 <=? Z.of_nat attempt)%Z then Raise (EOther "OverflowError")
  else Ok attempt.

(** The body of [for attempt in range(self.retries)], with [n] iterations
    left, followed by the final [raise].  The wait before the next attempt
    is outside the [try]: what [_get_backoff_delay] raises leaves the
    loop. *)
Fixpoint attempts (self : ForPrompt) (t : Transport) (req : Request)
  (n attempt : nat) (last_error : option ForPromptError) (w : World)
  : result json * World :=
  match n with
  | O => (Raise (EForPrompt (final_error last_error)), w)
  | S n' =>
      let (o, w1) := issue t req w in
      let continue (e : ForPromptError) :=
        if (Z.of_nat attempt <? retries self - 1)%Z then
          match _get_backoff_delay attempt with
          | Ok delay =>
              attempts self t req n' (S attempt) (Some e) (sleep delay w1)
          | Raise x => (Raise x, w1)
          end
        else attempts self t req n' (S attempt) (Some e) w1 in
      match o with
      | TimeoutException _ => (Raise (EForPrompt (timeout_error self)), w1)
      | RequestError msg => continue (network_error msg)
      | Responded r =>
          if ((400 <=? resp_status r) && (resp_status r <? 500))%Z then
            (Raise (client_error r), w1)
          else if is_success (resp_status r) then
            match resp_body r with
            | Some j => (Ok j, w1)
            | None => (Raise (EOther "JSONDecodeError"), w1)
            end
          else continue (server_error (resp_status r))
      end
  end.

Definition build_request (self : ForPrompt) (method path : string)
  (params : option (list (string * string))) (body : option json) : Request :=
  {| req_method := method;
     req_url := base_url self +:+ path;
     req_headers := [("Content-Type", "application/json");
                     ("X-API-Key", api_key self)];
     req_params := params;
     req_json := body;
     req_timeout := timeout self |}.

(** [ForPrompt._make_request] *)
Definition _make_request (self : ForPrompt) (t : Transport)
  (method path : string) (params : option (list (string * string)))
  (body : option json) (w : World) : result json * World :=
  attempts self t (build_request self method path params body)
    (Z.to_nat (retries self)) 0 None w.

Definition invalid_input (msg : string) : ForPromptError :=
  {| message := JStr msg; status_code := 400; code := INVALID_INPUT |}.

(** [isinstance(v, int)]: [bool] is a subclass of [int]. *)
Definition is_int (v : json) : bool :=
  match v with
  | JInt _ | JBool _ => true
  | _ => false
  end.

(** The integer an [int] instance stands for ([True] is 1, [False] 0). *)
Definition int_value (v : json) : Z :=
  match v with
  | JInt z => z
  | JBool true => 1
  | _ => 0
  end.

(** [str(v)] of an [int] instance. *)
Definition str_of_int (v : json) : string :=
  match v with
  | JInt z => pretty z
  | JBool true => "True"
  | JBool false => "False"
  | _ => ""
  end.

(** [ForPrompt.get_prompt]; [key] is a [str]. *)
Definition get_prompt (self : ForPrompt) (t : Transport) (key : string)
  (version : option json) (w : World) : result Prompt * World :=
  if String.eqb key "" then
    (Raise (EForPrompt (invalid_input "Prompt key must be a non-empty string")), w)
  else if (256 <? String.length key)%nat then
    (Raise (EForPrompt
       (invalid_input "Prompt key must be 256 characters or less")), w)
  else if match version with
          | Some v => negb (is_int v) || (int_value v <? 1)%Z
          | None => false
          end then
    (Raise (EForPrompt (invalid_input "Version must be a positive integer")), w)
  else
    let params :=
      [("key", key)] ++
      match version with
      | Some v => [("version", str_of_int v)]
      | None => []
      end in
    match _make_request self t "GET" "/api/prompts" (Some params) None w with
    | (Ok data, w') => (from_dict data, w')
    | (Raise e, w') => (Raise e, w')
    end.

Definition CONCURRENCY_LIMIT : nat := 5.

(** [range(0, stop, step)] *)
Definition range_step (stop step : nat) : list nat :=
  map (fun k => k * step) (seq 0 ((stop + step - 1) / step)).

(** [for key in batch: try: ... except ForPromptError: pass]; an exception
    of another class leaves the loop. *)
Fixpoint fetch_batch (self : ForPrompt) (t : Transport) (version : option json)
  (batch : list string) (acc : gmap string Prompt) (w : World)
  : result (gmap string Prompt) * World :=
  match batch with
  | [] => (Ok acc, w)
  | key :: rest =>
      match get_prompt self t key version w with
      | (Ok prompt, w') =>
          fetch_batch self t version rest (<[key := prompt]> acc) w'
      | (Raise (EForPrompt _), w') => fetch_batch self t version rest acc w'
      | (Raise (EOther c), w') => (Raise (EOther c), w')
      end
  end.

(** [for i in range(0, len(keys), CONCURRENCY_LIMIT):
       batch = keys[i:i + CONCURRENCY_LIMIT] ...] *)
Fixpoint fetch_batches (self : ForPrompt) (t : Transport) (version : option json)
  (keys : list string) (starts : list nat) (acc : gmap string Prompt)
  (w : World) : result (gmap string Prompt) * World :=
  match starts with
  | [] => (Ok acc, w)
  | i :: more =>
      match fetch_batch self t version
              (firstn CONCURRENCY_LIMIT (skipn i keys)) acc w with
      | (Ok acc', w') => fetch_batches self t version keys more acc' w'
      | (Raise e, w') => (Raise e, w')
      end
  end.

(** [ForPrompt.get_prompts] *)
Definition get_prompts (self : ForPrompt) (t : Transport) (keys : list string)
  (version : option json) (w : World) : result (gmap string Prompt) * World :=
  fetch_batches self t version keys
    (range_step (length keys) CONCURRENCY_LIMIT) ∅ w.

End Client.

(* ===================================================================== *)
(** * logger.py *)
(* ===================================================================== *)

Module Logger.
Import Types Net.

Definition DEFAULT_BASE_URL : string := "https://forprompt.dev".
Definition DEFAULT_TIMEOUT : string := "30.0".

(** The attributes of a [ForPromptLogger], trace state included. *)
Record ForPromptLogger := mkLogger {
  api_key : string;
  base_url : string;
  source : string;
  redact_pii_enabled : bool;
  timeout : string;
  _trace_id : option string;
  _prompt_key : option string;
  _version_number : option Z
}.

(** [ForPromptLogger.__init__] *)
Definition init (environ : gmap string string) (api_key base_url : option string)
  (source : string) (redact_pii : bool) (timeout : string)
  : result ForPromptLogger :=
  let k := or_str api_key (environ_get environ "FORPROMPT_API_KEY" "") in
  let u := rstrip_slash
             (or_str base_url
                (environ_get environ "FORPROMPT_BASE_URL" DEFAULT_BASE_URL)) in
  if String.eqb k "" then
    Raise (EForPrompt (missing_api_key
      ("API key is required. Set FORPROMPT_API_KEY environment variable "
       +:+ "or pass api_key parameter.")))
  else
    Ok {| api_key := k; base_url := u; source := source;
          redact_pii_enabled := redact_pii; timeout := timeout;
          _trace_id := None; _prompt_key := None; _version_number := None |}.

Definition set_trace (self : ForPromptLogger) (tid pk : option string)
  (vn : option Z) : ForPromptLogger :=
  {| api_key := api_key self; base_url := base_url self;
     source := source self; redact_pii_enabled := redact_pii_enabled self;
     timeout := timeout self;
     _trace_id := tid; _prompt_key := pk; _version_number := vn |}.

(** [a or str(uuid.uuid4())] *)
Definition or_uuid (gen : nat -> string) (a : option string) (w : World)
  : string * World :=
  match a with
  | Some EmptyString | None => uuid4 gen w
  | Some s => (s, w)
  end.

(** [ForPromptLogger.start_trace]: the trace id and the updated logger. *)
Definition start_trace (gen : nat -> string) (self : ForPromptLogger)
  (prompt_key : string) (trace_id : option string) (version_number : option Z)
  (w : World) : string * ForPromptLogger * World :=
  let (tid, w') := or_uuid gen trace_id w in
  (tid, set_trace self (Some tid) (Some prompt_key) version_number, w').

(** [ForPromptLogger.end_trace] *)
Definition end_trace (self : ForPromptLogger) : ForPromptLogger :=
  set_trace self None None None.

(** The optional arguments of [log]. *)
Record LogArgs := mkLogArgs {
  model : option string;
  input_tokens : option Z;
  output_tokens : option Z;
  duration_ms : option Z;
  metadata : option (list (string * json));
  redact_pii_override : option bool
}.

Definition no_args : LogArgs :=
  {| model := None; input_tokens := None; output_tokens := None;
     duration_ms := None; metadata := None; redact_pii_override := None |}.

Definition opt_str (o : option string) : json :=
  match o with Some s => JStr s | None => JNull end.

Definition opt_int (o : option Z) : json :=
  match o with Some z => JInt z | None => JNull end.

Definition opt_dict (o : option (list (string * json))) : json :=
  match o with Some d => JDict d | None => JNull end.

Definition is_none (v : json) : bool :=
  match v with JNull => true | _ => false end.

(** [metadata or {}]: [None] and the empty dict are falsy. *)
Definition or_empty (m : option (list (string * json)))
  : list (string * json) :=
  match m with Some d => d | None => [] end.

Section Logging.
Context {U : Re.unicode}.

(** Content and metadata after the redaction step of [log]. *)
Definition redact_step (should_redact : bool) (content : pystr)
  (meta : option (list (string * json)))
  : pystr * option (list (string * json)) :=
  if should_redact then
    let result := Pii.redact_pii content
                    (Some {| enabled := true; patterns := None;
                             log_stats := false |}) in
    (redacted result,
     if has_pii result
     then Some (dict_set "pii_redactions"
                  (JList (map jstr (redactions result)))
                  (or_empty meta))
     else meta)
  else (content, meta).

(** The payload of [log], [None] values removed. *)
Definition build_payload (self : ForPromptLogger) (trace_id role : string)
  (safe_content : pystr) (a : LogArgs)
  (meta : option (list (string * json))) : list (string * json) :=
  List.filter (fun kv => negb (is_none (snd kv)))
    [ ("traceId", JStr trace_id);
      ("promptKey", JStr (or_str (_prompt_key self) "unknown"));
      ("versionNumber", opt_int (_version_number self));
      ("type", JStr "message");
      ("role", JStr role);
      ("content", JStr safe_content);
      ("model", opt_str (model a));
      ("inputTokens", opt_int (input_tokens a));
      ("outputTokens", opt_int (output_tokens a));
      ("durationMs", opt_int (duration_ms a));
      ("source", JStr (source self));
      ("metadata", opt_dict meta) ]%string.

(** The error of a non-success response: [error_data = response.json()],
    falling back to [{}]; [error_data.get("error", "Failed to log")]. *)
Definition log_error (r : Response) : exn :=
  let error_data :=
    match resp_body r with Some j => j | None => JDict [] end in
  match error_data with
  | JDict d =>
      EForPrompt
        {| message := match dict_get "error" d with
                      | Some m => m
                      | None => JStr "Failed to log"
                      end;
           status_code := resp_status r;
           code := LOG_ERROR |}
  | _ => EOther "AttributeError"
  end.

Definition network_error (msg : string) : ForPromptError :=
  {| message := JStr ("Network error: " +:+ msg); status_code := 0;
     code := NETWORK_ERROR |}.

(** [redact_pii_override if redact_pii_override is not None
     else self.redact_pii_enabled] *)
Definition should_redact (self : ForPromptLogger) (a : LogArgs) : bool :=
  match redact_pii_override a with
  | Some b => b
  | None => redact_pii_enabled self
  end.

(** [ForPromptLogger.log]: one POST, no retry loop.  A timeout is an
    [httpx.RequestError] too and is reported as a network error. *)
Definition log (gen : nat -> string) (t : Transport) (self : ForPromptLogger)
  (role : string) (content : pystr) (a : LogArgs) (w : World)
  : result unit * ForPromptLogger * World :=
  let (tid, w0) := or_uuid gen (_trace_id self) w in
  let self' := set_trace self (Some tid) (_prompt_key self)
                 (_version_number self) in
  let (safe_content, meta) :=
    redact_step (should_redact self a) content (metadata a) in
  let payload := build_payload self' tid role safe_content a meta in
  let req :=
    {| req_method := "POST";
       req_url := base_url self +:+ "/api/log";
       req_headers := [("Content-Type", "application/json");
                       ("X-API-Key", api_key self)];
       req_params := None;
       req_json := Some (JDict payload);
       req_timeout := timeout self |} in
  let (o, w1) := issue t req w0 in
  match o with
  | Responded r =>
      if is_success (resp_status r) then (Ok tt, self', w1)
      else (Raise (log_error r), self', w1)
  | TimeoutException msg | RequestError msg =>
      (Raise (EForPrompt (network_error msg)), self', w1)
  end.

(** [ForPromptLogger.log_request]; it has no redaction override to pass. *)
Definition log_request (gen : nat -> string) (t : Transport)
  (self : ForPromptLogger) (prompt_key role : string) (content : pystr)
  (a : LogArgs) (version_number : option Z) (w : World)
  : result string * ForPromptLogger * World :=
  let '(trace_id, self1, w1) :=
    start_trace gen self prompt_key None version_number w in
  let a' := {| model := model a; input_tokens := input_tokens a;
               output_tokens := output_tokens a; duration_ms := duration_ms a;
               metadata := metadata a; redact_pii_override := None |} in
  match log gen t self1 role content a' w1 with
  | (Ok _, self2, w2) => (Ok trace_id, end_trace self2, w2)
  | (Raise e, self2, w2) => (Raise e, self2, w2)
  end.

End Logging.

(** The [trace_id] and [is_tracing] properties. *)
Definition trace_id (self : ForPromptLogger) : option string := _trace_id self.

Definition is_tracing (self : ForPromptLogger) : bool :=
  match _trace_id self with Some _ => true | None => false end.

End Logger.

(* ===================================================================== *)
(** * Vocabulary of the properties *)
(* ===================================================================== *)

Module ClientSpec.
Import Types Net Client.

(** A supplied version is a positive integer ([True] is the integer 1). *)
Definition positive_int (v : json) : Prop :=
  match v with
  | JInt z => (1 <= z)%Z
  | JBool b => b = true
  | _ => False
  end.

Definition valid_version (version : option json) : Prop :=
  match version with
  | Some v => positive_int v
  | None => True
  end.

Definition valid_key (key : string) : Prop :=
  key <> "" /\ String.length key <= 256.

(** The request [get_prompt] hands to the executor. *)
Definition prompt_request (self : ForPrompt) (key : string)
  (version : option json) : Request :=
  build_request self "GET" "/api/prompts"
    (Some ([("key", key)] ++
           match version with
           | Some v => [("version", str_of_int v)]
           | None => []
           end))
    None.

(** A retryable outcome, with the error the executor records for it: a
    response with a 5xx status, or a transport failure that is not a
    timeout. *)
Definition retry_error (o : Outcome) : option ForPromptError :=
  match o with
  | Responded r =>
      if ((500 <=? resp_status r) && (resp_status r <=? 599))%Z
      then Some (server_error (resp_status r)) else None
  | RequestError msg => Some (network_error msg)
  | TimeoutException _ => None
  end.

(** The attempt indices after which the executor sleeps. *)
Definition backoffs (self : ForPrompt) (first n : nat) : list nat :=
  List.filter (fun a => (Z.of_nat a <? retries self - 1)%Z) (seq first n).



(** A client with the default settings and the given retry count. *)
Definition client_with (n : Z) : ForPrompt :=
  {| api_key := "fp_proj_xxx"; base_url := DEFAULT_BASE_URL;
     timeout := DEFAULT_TIMEOUT; retries := n; redact_pii_enabled := true |}.

(** A body that decodes to a prompt. *)
Definition sample_body (key : string) : json :=
  JDict [("key", JStr key); ("name", JStr "Sample");
         ("versionNumber", JInt 1); ("systemPrompt", JStr "Be brief.");
         ("updatedAt", JInt 1700000000000)].

Definition ok_response (key : string) : Outcome :=
  Responded {| resp_status := 200; resp_body := Some (sample_body key) |}.

Definition status_response (status : Z) : Outcome :=
  Responded {| resp_status := status; resp_body := None |}.

(** Transports of the scenarios below. *)
Definition flaky_transport : Transport :=
  fun n _ =>
    match n with
    | 0 | 1 => status_response 500
    | _ => ok_response "my-prompt"
    end.

Definition timeout_transport : Transport :=
  fun _ _ => TimeoutException "timed out".

Definition failing_transport : Transport :=
  fun _ _ => status_response 500.

(** A transport that answers by the requested key: 404 for the keys of
    [missing], a prompt for the others. *)
Definition keyed_transport (missing : list string) : Transport :=
  fun _ req =>
    match req_params req with
    | Some (("key", k) :: _) =>
        if existsb (String.eqb k) missing
        then Responded {| resp_status := 404;
                          resp_body := Some (JDict [("error",
                                                     JStr "not found")]) |}
        else ok_response k
    | _ => status_response 400
    end.

(** Seven keys, the third and the fifth of which the server does not know. *)
Definition seven_keys : list string :=
  ["k1"; "k2"; "k3"; "k4"; "k5"; "k6"; "k7"].

Definition unknown_keys : list string := ["k3"; "k5"].

Definition known (k : string) : bool :=
  negb (existsb (String.eqb k) unknown_keys).

End ClientSpec.

Module ReSpec.
Import Types Re.

(** The code points of the class item [lo-hi]. *)
Definition codes (lo hi : ascii) : list N :=
  map N.of_nat (seq (N.to_nat (ord lo)) (S (N.to_nat (ord hi)) - N.to_nat (ord lo))).

(** Every character of the class satisfies [P]; [spaces] tells whether
    [P] is known to hold of every whitespace character. *)
Definition item_all (P : N -> bool) (spaces : bool) (i : citem) : bool :=
  match i with
  | Lit c => P (ord c)
  | Rng lo hi => forallb P (codes lo hi)
  | Spc => spaces
  end.

Definition class_all (P : N -> bool) (spaces : bool) (cls : list citem)
  : bool :=
  forallb (item_all P spaces) cls.

(** Static analyses of a pattern. *)

(** [r] may match the empty text. *)
Fixpoint nullable (r : regex) : bool :=
  match r with
  | Eps | Many _ | WordB => true
  | Chr _ => false
  | Seq r1 r2 => nullable r1 && nullable r2
  | Alt r1 r2 => nullable r1 || nullable r2
  end.

(** Every character [r] can consume satisfies [P]. *)
Fixpoint chars_sat (P : N -> bool) (spaces : bool) (r : regex) : bool :=
  match r with
  | Eps | WordB => true
  | Chr cls | Many cls => class_all P spaces cls
  | Seq r1 r2 | Alt r1 r2 => chars_sat P spaces r1 && chars_sat P spaces r2
  end.

(** Every match of [r] holds a character that satisfies [P]. *)
Fixpoint must_have (P : N -> bool) (r : regex) : bool :=
  match r with
  | Eps | Many _ | WordB => false
  | Chr cls => class_all P false cls
  | Seq r1 r2 => must_have P r1 || must_have P r2
  | Alt r1 r2 => must_have P r1 && must_have P r2
  end.

(** Every non-empty match of [r] starts (ends) with a word character: the
    classes at its ends hold ASCII word characters only. *)
Fixpoint firsts_word (r : regex) : bool :=
  match r with
  | Eps | WordB => true
  | Chr cls | Many cls => class_all ascii_word false cls
  | Seq r1 r2 => firsts_word r1 && (negb (nullable r1) || firsts_word r2)
  | Alt r1 r2 => firsts_word r1 && firsts_word r2
  end.

Fixpoint lasts_word (r : regex) : bool :=
  match r with
  | Eps | WordB => true
  | Chr cls | Many cls => class_all ascii_word false cls
  | Seq r1 r2 => lasts_word r2 && (negb (nullable r2) || lasts_word r1)
  | Alt r1 r2 => lasts_word r1 && lasts_word r2
  end.

(** [r] has no word-boundary assertion: its matches do not depend on the
    characters around them. *)
Fixpoint no_wordb (r : regex) : bool :=
  match r with
  | Eps | Chr _ | Many _ => true
  | WordB => false
  | Seq r1 r2 | Alt r1 r2 => no_wordb r1 && no_wordb r2
  end.

(** [r] is a non-empty body between two word-boundary assertions, and the
    body starts and ends with word characters: the matches of [r] are
    delimited by non-word characters (or the ends of the text). *)
Definition is_bordered (r : regex) : bool :=
  match r with
  | Seq WordB (Seq b WordB) =>
      negb (nullable b) && firsts_word b && lasts_word b
  | _ => false
  end.

(** The characters that tell a match from a replacement token: every match
    of a catalog pattern holds a digit, an at sign or a colon, and no
    token does. *)
Definition is_mark (c : N) : bool :=
  in_range 48 57 c || N.eqb c (ord "@") || N.eqb c (ord ":").

Definition not_bracket (c : N) : bool :=
  negb (N.eqb c (ord "[") || N.eqb c (ord "]")).

(** A replacement token is bracketed and holds no mark. *)
Definition token_ok (R : pystr) : bool :=
  match R with
  | c :: rest =>
      N.eqb c (ord "[")
      && match rev rest with
         | d :: body =>
             N.eqb d (ord "]") && forallb (fun c => negb (is_mark c)) body
         | [] => false
         end
  | [] => false
  end.

(** What the idempotence argument asks of one pattern and its token. *)
Definition pattern_ok (r : regex) (R : pystr) : bool :=
  negb (nullable r) && chars_sat not_bracket true r && must_have is_mark r
  && (no_wordb r || is_bordered r) && token_ok R.

(** ... and of a catalog: once a pattern with word boundaries appears,
    every later pattern is delimited too. *)
Fixpoint catalog_ok (ps : list (regex * pystr)) : bool :=
  match ps with
  | [] => true
  | (r, R) :: rest =>
      pattern_ok r R
      && (no_wordb r || forallb (fun q => is_bordered (fst q)) rest)
      && catalog_ok rest
  end.

(** The patterns and tokens of the catalog of pii.py. *)
Definition catalog : list (regex * pystr) :=
  map (fun p => (snd (fst p), text (snd p))) Pii.PII_PATTERNS.

Section Reading.
Context {U : unicode}.

(** What it means for [r] to match exactly the characters [u], read after
    a character of word status [pw] and before one of word status [nw]:
    the declarative reading of a pattern, against which the backtracking
    matcher is proved sound and complete. *)
Fixpoint matches (r : regex) (pw : bool) (u : pystr) (nw : bool) : Prop :=
  match r with
  | Eps => u = []
  | Chr cls => exists c, u = [c] /\ in_class cls c = true
  | Seq r1 r2 =>
      exists u1 u2, u = u1 ++ u2
        /\ matches r1 pw u1 (firstw u2 nw)
        /\ matches r2 (lastw pw u1) u2 nw
  | Alt r1 r2 => matches r1 pw u nw \/ matches r2 pw u nw
  | Many cls => Forall (fun c => in_class cls c = true) u
  | WordB => u = [] /\ xorb pw nw = true
  end.

(** The substitutions of a catalog, one after the other. *)
Definition sub_all (ps : list (regex * pystr)) (s : pystr)
  : pystr :=
  fold_left (fun s p => sub (fst p) (snd p) s) ps s.

(** [t'] is [t] with some matches of [r] replaced by [R].  Both texts are
    read from left to right, from the word status [pw] (in [t]) and [pw']
    (in [t']) of the character before; [K] holds at every position of [t]
    whose character is kept. *)
Inductive rewr (r : regex) (R : pystr) (K : bool -> pystr -> Prop)
  : bool -> pystr -> bool -> pystr -> Prop :=
| rewr_nil pw pw' : rewr r R K pw [] pw' []
| rewr_keep pw pw' c s s' :
    K pw (c :: s) ->
    rewr r R K (is_word c) s (is_word c) s' ->
    rewr r R K pw (c :: s) pw' (c :: s')
| rewr_tok pw pw' m s s' :
    m <> [] ->
    matches r pw m (hdw s) ->
    rewr r R K (lastw pw m) s (lastw pw' R) s' ->
    rewr r R K pw (m ++ s) pw' (R ++ s').

End Reading.

End ReSpec.

Module LoggerSpec.
Import Types Net Logger.

(** A logger with the default settings. *)
Definition sample_logger : ForPromptLogger :=
  {| api_key := "fp_proj_xxx"; base_url := DEFAULT_BASE_URL;
     source := "python-sdk"; redact_pii_enabled := true;
     timeout := DEFAULT_TIMEOUT;
     _trace_id := None; _prompt_key := None; _version_number := None |}.

(** A supply of trace identifiers and a server that accepts every log. *)
Definition sample_uuids : nat -> string :=
  fun n => "trace-" +:+ pretty n.

Definition accepting_transport : Transport :=
  fun _ _ => Responded {| resp_status := 200; resp_body := Some (JDict []) |}.

(** The request [log] posts. *)
Definition log_request_of (self : ForPromptLogger) (payload : list (string * json))
  : Request :=
  {| req_method := "POST";
     req_url := base_url self +:+ "/api/log";
     req_headers := [("Content-Type", "application/json");
                     ("X-API-Key", api_key self)];
     req_params := None;
     req_json := Some (JDict payload);
     req_timeout := timeout self |}.

End LoggerSpec.

Module PiiSpec.
Import Types Pii.

(** The invariant of the loop of [redact_pii]. *)
Definition counted (st : loop_state) : Prop :=
  (l_redactions st = [] <-> l_counts st = ∅)
  /\ forall k n, l_counts st !! k = Some n -> 0 < n.

End PiiSpec.

Module ConfigSpec.
Import Types Net.

(** An optional string that [a or b] keeps: given and not empty. *)
Definition given (a : option string) : option string :=
  match a with
  | Some EmptyString | None => None
  | Some s => Some s
  end.

(** [s] ends with a slash. *)
Definition ends_with_slash (s : string) : bool :=
  match rev (list_ascii_of_string s) with
  | c :: _ => Ascii.eqb c "/"
  | [] => false
  end.

(** The API key and the base URL before stripping, as [__init__] resolves
    them: the argument when it is given and not empty, else the
    environment variable, else the default. *)
Definition resolved_key (environ : gmap string string) (k : option string)
  : string :=
  match given k with
  | Some s => s
  | None => environ_get environ "FORPROMPT_API_KEY" ""
  end.

Definition resolved_url (environ : gmap string string) (u : option string)
  : string :=
  match given u with
  | Some s => s
  | None => environ_get environ "FORPROMPT_BASE_URL" Client.DEFAULT_BASE_URL
  end.

End ConfigSpec.

Module ExecutorSpec.
Import Types Net Client ClientSpec.

(** The error the loop of [_make_request] records for an outcome before
    going on to the next attempt: a transport failure that is not a
    timeout, or a response whose status is neither 4xx nor a success
    (5xx, but 1xx and 3xx as well).  [None] for the outcomes that end the
    loop. *)
Definition recorded (o : Outcome) : option ForPromptError :=
  match o with
  | Responded r =>
      if ((400 <=? resp_status r) && (resp_status r <? 500))%Z then None
      else if is_success (resp_status r) then None
      else Some (server_error (resp_status r))
  | RequestError msg => Some (network_error msg)
  | TimeoutException _ => None
  end.

(** A transport that fails to connect once and then answers. *)
Definition recovering_transport : Transport :=
  fun n _ =>
    match n with
    | 0 => RequestError "connection refused"
    | _ => ok_response "my-prompt"
    end.

(** A transport that redirects once and then times out. *)
Definition redirect_then_timeout : Transport :=
  fun n _ =>
    match n with
    | 0 => status_response 301
    | _ => TimeoutException "timed out"
    end.

(** A transport that answers 503 once and then 404 with a message. *)
Definition busy_then_missing : Transport :=
  fun n _ =>
    match n with
    | 0 => status_response 503
    | _ => Responded {| resp_status := 404;
                        resp_body := Some (JDict [("error", JStr "not found")]) |}
    end.

(** A transport that always redirects. *)
Definition redirecting_transport : Transport :=
  fun _ _ => status_response 301.

(** A transport whose 200 answer lacks the required [systemPrompt]. *)
Definition truncated_transport : Transport :=
  fun _ _ =>
    Responded {| resp_status := 200;
                 resp_body := Some (JDict [("key", JStr "k1");
                                           ("name", JStr "Sample");
                                           ("versionNumber", JInt 1)]) |}.

(** The backoff delay is asked for after this attempt and cannot be
    computed. *)
Definition overflows (self : ForPrompt) (attempt : nat) : bool :=
  ((Z.of_nat attempt <? retries self - 1) && (1024 <=? Z.of_nat attempt))%Z.

(** The world after one attempt that goes on to the next: the call is
    issued, and the backoff sleep is taken unless the attempt is the last
    configured one. *)
Definition after_attempt (self : ForPrompt) (t : Transport) (req : Request)
  (attempt : nat) (w : World) : World :=
  if (Z.of_nat attempt <? retries self - 1)%Z
  then sleep attempt (snd (issue t req w))
  else snd (issue t req w).

(** The prompt [sample_body key] decodes to. *)
Definition sample_prompt (key : string) : Prompt :=
  {| key := JStr key; name := JStr "Sample"; version_number := JInt 1;
     system_prompt := JStr "Be brief."; updated_at := JInt 1700000000000;
     description := JNull; purpose := JNull; expected_behavior := JNull;
     input_format := JNull; output_format := JNull; constraints := JNull;
     use_cases := JNull; additional_notes := JNull; tools_notes := JNull |}.

(** The five fields [Prompt.from_dict] indexes. *)
Definition required_fields : list string :=
  ["key"; "name"; "versionNumber"; "systemPrompt"; "updatedAt"].

End ExecutorSpec.

Module TraceSpec.
Import Types Net Logger LoggerSpec ConfigSpec.

(** The outcome is a success response. *)
Definition accepted (o : Outcome) : bool :=
  match o with
  | Responded r => is_success (resp_status r)
  | _ => false
  end.

(** The trace identifier [log] works with: the active one, or a fresh
    one drawn from the supply. *)
Definition trace_id_for (gen : nat -> string) (self : ForPromptLogger)
  (w : World) : string :=
  match given (_trace_id self) with
  | Some s => s
  | None => gen (uuids w)
  end.

(** A server that refuses every log with a message. *)
Definition refusing_transport : Transport :=
  fun _ _ => Responded {| resp_status := 422;
                          resp_body := Some (JDict [("error", JStr "bad role")]) |}.

(** A server that cannot be reached in time. *)
Definition silent_transport : Transport :=
  fun _ _ => TimeoutException "timed out".

(** Optional arguments with caller metadata and redaction switched off. *)
Definition plain_args : LogArgs :=
  {| model := Some "gpt-4"; input_tokens := None; output_tokens := Some 10%Z;
     duration_ms := None; metadata := Some [("session", JStr "s1")];
     redact_pii_override := Some false |}.

(** Optional arguments with caller metadata, redaction left to the logger. *)
Definition tagged_args : LogArgs :=
  {| model := None; input_tokens := None; output_tokens := None;
     duration_ms := None; metadata := Some [("session", JStr "s1")];
     redact_pii_override := None |}.

End TraceSpec.

Module RedactionSpec.
Import Types Re Pii.

(** The name, the pattern and the replacement text of a catalog entry. *)
Definition pattern_name (p : string * regex * string) : string := fst (fst p).
Definition pattern_re (p : string * regex * string) : regex := snd (fst p).

(** The summary of a pattern, if the counts hold an entry for it. *)
Definition summary_of (counts : gmap string nat) (p : string * regex * string)
  : list string :=
  match counts !! pattern_name p with
  | Some c => [summary (pattern_name p) c]
  | None => []
  end.

(** A catalog with its replacement texts as character lists. *)
Definition as_catalog (ps : list (string * regex * string))
  : list (regex * pystr) :=
  map (fun p => (snd (fst p), text (snd p))) ps.

End RedactionSpec.

(* ===================================================================== *)
(** * The matcher against its declarative reading *)
(* ===================================================================== *)

Module ReFacts.
Import Types Re ReSpec.

Section Tables.
Context {U : unicode}.

Lemma hdw_app u s : hdw (u ++ s) = firstw u (hdw s).
Proof. destruct u; reflexivity. Qed.

Lemma lastw_app pw u v : lastw pw (u ++ v) = lastw (lastw pw u) v.
Proof. unfold lastw. apply fold_left_app. Qed.

Lemma lastw_cons pw c u : lastw pw (c :: u) = lastw (is_word c) u.
Proof. reflexivity. Qed.

(** After a non-empty text the status before it is forgotten. *)
Lemma lastw_nonempty pw pw' u : u <> [] -> lastw pw u = lastw pw' u.
Proof. destruct u; [congruence | reflexivity]. Qed.

Lemma many_spec cls s :
  forall pw pw' s',
    In (pw', s') (many cls pw s) <->
    exists u, s = u ++ s' /\ pw' = lastw pw u
              /\ Forall (fun c => in_class cls c = true) u.
Proof.
  induction s as [|c s IH]; intros pw pw' s'.
  - simpl. split.
    + intros [[= <- <-]|[]]. exists []. auto.
    + intros (u & Hs & -> & _). symmetry in Hs.
      apply app_eq_nil in Hs as [-> ->]. left. reflexivity.
  - simpl. destruct (in_class cls c) eqn:Hc.
    + rewrite in_app_iff, IH. split.
      * intros [(u & -> & -> & Hu)|[[= <- <-]|[]]].
        -- exists (c :: u). repeat split. constructor; assumption.
        -- exists []. auto.
      * intros (u & Hs & -> & Hu). destruct u as [|d u].
        -- right. left. simpl in Hs. subst s'. reflexivity.
        -- left. injection Hs as <- ->. exists u. inversion Hu; subst. auto.
    + split.
      * intros [[= <- <-]|[]]. exists []. auto.
      * intros (u & Hs & -> & Hu). destruct u as [|d u].
        -- left. simpl in Hs. subst s'. reflexivity.
        -- injection Hs as <- ->. inversion Hu; subst. congruence.
Qed.

(** The matcher is sound and complete: the positions it lists are exactly
    the ends of the texts the pattern matches here. *)
Lemma run_spec r :
  forall pw s pw' s',
    In (pw', s') (run r pw s) <->
    exists u, s = u ++ s' /\ pw' = lastw pw u /\ matches r pw u (hdw s').
Proof.
  induction r as [|cls|r1 IH1 r2 IH2|r1 IH1 r2 IH2|cls|]; intros pw s pw' s'.
  - simpl. split.
    + intros [[= <- <-]|[]]. exists []. auto.
    + intros (u & -> & -> & ->). left. reflexivity.
  - simpl. destruct s as [|c s].
    + split; [intros []|]. intros (u & Hs & _ & c & -> & _). discriminate.
    + destruct (in_class cls c) eqn:Hc.
      * split.
        -- intros [[= <- <-]|[]]. exists [c]. repeat split. exists c. auto.
        -- intros (u & Hs & -> & d & -> & _). injection Hs as <- ->.
           left. reflexivity.
      * split; [intros []|].
        intros (u & Hs & _ & d & -> & Hd). injection Hs as <- _. congruence.
  - simpl. rewrite in_flat_map. split.
    + intros ([pw1 s1] & H1 & H2). simpl in H2.
      apply IH1 in H1 as (u1 & -> & -> & M1).
      apply IH2 in H2 as (u2 & -> & -> & M2).
      exists (u1 ++ u2). rewrite <- app_assoc, lastw_app. repeat split.
      exists u1, u2. rewrite hdw_app in M1. auto.
    + intros (u & -> & -> & u1 & u2 & -> & M1 & M2).
      exists (lastw pw u1, u2 ++ s'). split.
      * apply IH1. exists u1. rewrite <- app_assoc, hdw_app. auto.
      * simpl. apply IH2. exists u2. rewrite lastw_app. auto.
  - simpl. rewrite in_app_iff, IH1, IH2. split.
    + intros [(u & -> & -> & M)|(u & -> & -> & M)]; exists u; auto.
    + intros (u & -> & -> & [M|M]); [left|right]; exists u; auto.
  - simpl. apply many_spec.
  - simpl. destruct (xorb pw (hdw s)) eqn:Hx.
    + split.
      * intros [[= <- <-]|[]]. exists []. auto.
      * intros (u & -> & -> & -> & _). left. reflexivity.
    + split; [intros []|]. intros (u & -> & -> & -> & Hx'). simpl in Hx.
      congruence.
Qed.

(** No match starts here: no text at this position is matched. *)
Lemma run_nil_iff r pw s :
  run r pw s = [] <->
  forall u s', s = u ++ s' -> ~ matches r pw u (hdw s').
Proof.
  split.
  - intros Hrun u s' -> M.
    assert (Hin : In (lastw pw u, s') (run r pw (u ++ s')))
      by (apply run_spec; exists u; auto).
    rewrite Hrun in Hin. exact Hin.
  - intros H. destruct (run r pw s) as [|[pw' s'] l] eqn:Hrun; [reflexivity|].
    assert (Hin : In (pw', s') (run r pw s)) by (rewrite Hrun; left; reflexivity).
    apply run_spec in Hin as (u & -> & _ & M). destruct (H u s' eq_refl M).
Qed.

(* --------------------------------------------------------------------- *)
(** ** Soundness of the static analyses *)
(* --------------------------------------------------------------------- *)

Lemma codes_complete lo hi c :
  in_range (ord lo) (ord hi) c = true -> In c (codes lo hi).
Proof.
  unfold in_range, codes. intros H.
  apply andb_true_iff in H as [H1 H2].
  apply N.leb_le in H1, H2.
  apply in_map_iff. exists (N.to_nat c). split.
  - apply N2Nat.id.
  - apply in_seq. lia.
Qed.

(** An ASCII word character is a word character, whatever the tables. *)
Lemma ascii_word_is_word c : ascii_word c = true -> is_word c = true.
Proof.
  unfold is_word. intros H. destruct (c <? 128)%N eqn:Hc; [exact H|].
  apply N.ltb_ge in Hc. unfold ascii_word, in_range in H.
  repeat (apply orb_true_iff in H as [H|H]);
    apply andb_true_iff in H as [_ H]; apply N.leb_le in H; lia.
Qed.

(** No whitespace character is a bracket. *)
Lemma space_not_bracket c : is_space c = true -> not_bracket c = true.
Proof.
  unfold not_bracket. intros H.
  destruct (c =? ord "[")%N eqn:H1;
    [apply N.eqb_eq in H1; subst c; discriminate H|].
  destruct (c =? ord "]")%N eqn:H2;
    [apply N.eqb_eq in H2; subst c; discriminate H|].
  reflexivity.
Qed.

Lemma class_all_sound P spaces cls c :
  (spaces = true -> forall d, is_space d = true -> P d = true) ->
  class_all P spaces cls = true -> in_class cls c = true -> P c = true.
Proof.
  unfold class_all, in_class. rewrite forallb_forall. intros Hs H Hc.
  apply existsb_exists in Hc as (i & Hi & Hc). specialize (H i Hi).
  destruct i as [d|lo hi|]; simpl in H, Hc.
  - apply N.eqb_eq in Hc. subst c. exact H.
  - rewrite forallb_forall in H. apply H, codes_complete, Hc.
  - apply Hs; assumption.
Qed.

Lemma class_all_plain P cls c :
  class_all P false cls = true -> in_class cls c = true -> P c = true.
Proof. apply class_all_sound. discriminate. Qed.

Lemma nullable_sound r :
  forall pw u nw, nullable r = false -> matches r pw u nw -> u <> [].
Proof.
  induction r as [|cls|r1 IH1 r2 IH2|r1 IH1 r2 IH2|cls|];
    simpl; intros pw u nw Hn M; try discriminate.
  - destruct M as (c & -> & _). discriminate.
  - destruct M as (u1 & u2 & -> & M1 & M2).
    apply andb_false_iff in Hn as [Hn|Hn].
    + apply IH1 in M1; [|exact Hn]. destruct u1; [congruence | discriminate].
    + apply IH2 in M2; [|exact Hn]. destruct u1, u2; try congruence; discriminate.
  - apply orb_false_iff in Hn as [Hn1 Hn2].
    destruct M as [M|M]; eauto.
Qed.

Lemma chars_sat_sound P spaces r :
  (spaces = true -> forall d, is_space d = true -> P d = true) ->
  forall pw u nw,
    chars_sat P spaces r = true -> matches r pw u nw ->
    Forall (fun c => P c = true) u.
Proof.
  intros Hs.
  induction r as [|cls|r1 IH1 r2 IH2|r1 IH1 r2 IH2|cls|];
    simpl; intros pw u nw Hc M.
  - subst u. constructor.
  - destruct M as (c & -> & Hin). constructor; [|constructor].
    eapply class_all_sound; eassumption.
  - apply andb_true_iff in Hc as [Hc1 Hc2].
    destruct M as (u1 & u2 & -> & M1 & M2).
    apply Forall_app. split; eauto.
  - apply andb_true_iff in Hc as [Hc1 Hc2]. destruct M as [M|M]; eauto.
  - eapply List.Forall_impl; [|exact M]. intros c Hin.
    eapply class_all_sound; eassumption.
  - destruct M as [-> _]. constructor.
Qed.

Lemma must_have_sound P r :
  forall pw u nw,
    must_have P r = true -> matches r pw u nw ->
    Exists (fun c => P c = true) u.
Proof.
  induction r as [|cls|r1 IH1 r2 IH2|r1 IH1 r2 IH2|cls|];
    simpl; intros pw u nw Hc M; try discriminate.
  - destruct M as (c & -> & Hin). constructor.
    eapply class_all_plain; eassumption.
  - destruct M as (u1 & u2 & -> & M1 & M2). apply Exists_app.
    apply orb_true_iff in Hc as [Hc|Hc]; [left|right]; eauto.
  - apply andb_true_iff in Hc as [Hc1 Hc2]. destruct M as [M|M]; eauto.
Qed.

Lemma firsts_word_sound r :
  forall pw u nw c u',
    firsts_word r = true -> matches r pw u nw -> u = c :: u' ->
    is_word c = true.
Proof.
  induction r as [|cls|r1 IH1 r2 IH2|r1 IH1 r2 IH2|cls|];
    simpl; intros pw u nw c u' Hf M Hu.
  - congruence.
  - destruct M as (d & -> & Hin). injection Hu as -> _.
    apply ascii_word_is_word; eapply class_all_plain; eassumption.
  - apply andb_true_iff in Hf as [Hf1 Hf2].
    destruct M as (u1 & u2 & -> & M1 & M2). destruct u1 as [|d u1].
    + apply orb_true_iff in Hf2 as [Hn|Hf2].
      * apply negb_true_iff in Hn.
        destruct (nullable_sound _ _ _ _ Hn M1 eq_refl).
      * simpl in Hu. eapply IH2; eassumption.
    + injection Hu as -> _. eapply IH1; [eassumption | eassumption | reflexivity].
  - apply andb_true_iff in Hf as [Hf1 Hf2]. destruct M as [M|M]; eauto.
  - subst u. inversion M; subst. apply ascii_word_is_word; eapply class_all_plain; eassumption.
  - destruct M as [-> _]. discriminate.
Qed.

Lemma lasts_word_sound r :
  forall pw u nw,
    lasts_word r = true -> matches r pw u nw -> u <> [] ->
    lastw pw u = true.
Proof.
  induction r as [|cls|r1 IH1 r2 IH2|r1 IH1 r2 IH2|cls|];
    simpl; intros pw u nw Hf M Hu.
  - congruence.
  - destruct M as (d & -> & Hin). simpl.
    apply ascii_word_is_word; eapply class_all_plain; eassumption.
  - apply andb_true_iff in Hf as [Hf2 Hf1].
    destruct M as (u1 & u2 & -> & M1 & M2). rewrite lastw_app.
    destruct u2 as [|d u2].
    + apply orb_true_iff in Hf1 as [Hn|Hf1].
      * apply negb_true_iff in Hn.
        destruct (nullable_sound _ _ _ _ Hn M2 eq_refl).
      * simpl. rewrite app_nil_r in Hu. eapply IH1; eassumption.
    + eapply IH2; [eassumption | eassumption | discriminate].
  - apply andb_true_iff in Hf as [Hf1 Hf2]. destruct M as [M|M]; eauto.
  - revert pw. induction M as [|d u Hd M IHM]; intros pw; [congruence|].
    rewrite lastw_cons. destruct u as [|e u].
    + simpl. apply ascii_word_is_word; eapply class_all_plain; eassumption.
    + apply IHM. discriminate.
  - destruct M as [-> _]. congruence.
Qed.

(** A pattern without word boundaries matches a text wherever it stands. *)
Lemma no_wordb_sound r :
  forall pw u nw pw2 nw2,
    no_wordb r = true -> matches r pw u nw -> matches r pw2 u nw2.
Proof.
  induction r as [|cls|r1 IH1 r2 IH2|r1 IH1 r2 IH2|cls|];
    simpl; intros pw u nw pw2 nw2 Hn M; try discriminate; try exact M.
  - apply andb_true_iff in Hn as [Hn1 Hn2].
    destruct M as (u1 & u2 & -> & M1 & M2). exists u1, u2. split; eauto.
  - apply andb_true_iff in Hn as [Hn1 Hn2]. destruct M as [M|M]; eauto.
Qed.

(** A delimited pattern only matches between non-word surroundings, and
    its matches start and end with a word character. *)
Lemma is_bordered_sound r pw u nw :
  is_bordered r = true -> matches r pw u nw ->
  pw = false /\ nw = false /\ hdw u = true /\ lastw false u = true /\ u <> [].
Proof.
  unfold is_bordered.
  destruct r as [| |r1 r2| | |]; try discriminate.
  destruct r1; try discriminate.
  destruct r2 as [| |b r3| | |]; try discriminate.
  destruct r3; try discriminate.
  intros Hb M. apply andb_true_iff in Hb as [Hb Hl].
  apply andb_true_iff in Hb as [Hn Hf]. apply negb_true_iff in Hn.
  simpl in M.
  destruct M as (u1 & u2 & -> & [-> Hx1] & u3 & u4 & -> & M & -> & Hx2).
  simpl in *. rewrite app_nil_r in *.
  pose proof (nullable_sound _ _ _ _ Hn M) as Hne.
  destruct u3 as [|c u3]; [congruence|].
  pose proof (firsts_word_sound _ _ _ _ c u3 Hf M eq_refl) as Hc.
  pose proof (lasts_word_sound _ _ _ _ Hl M Hne) as Hlast.
  simpl in Hx1. rewrite Hc in Hx1. rewrite Hlast in Hx2.
  destruct pw; [discriminate|]. destruct nw; [discriminate|].
  repeat split; assumption.
Qed.

(* --------------------------------------------------------------------- *)
(** ** The scans: [search], [findall] and [sub] *)
(* --------------------------------------------------------------------- *)

Lemma search_from_cons r pw c s :
  search_from r pw (c :: s) = false <->
  run r pw (c :: s) = [] /\ search_from r (is_word c) s = false.
Proof.
  simpl. destruct (run r pw (c :: s)); split;
    try tauto; try discriminate; intros [? ?]; discriminate.
Qed.

Lemma search_from_nil r pw :
  search_from r pw [] = false <-> run r pw [] = [].
Proof.
  simpl. destruct (run r pw []); split; try reflexivity; discriminate.
Qed.

Lemma search_from_here r pw s :
  search_from r pw s = false -> run r pw s = [].
Proof.
  destruct s; [apply search_from_nil | intros H; apply search_from_cons in H; tauto].
Qed.

(** A text without a match has none after any of its prefixes. *)
Lemma search_from_app r m :
  forall pw s,
    search_from r pw (m ++ s) = false -> search_from r (lastw pw m) s = false.
Proof.
  induction m as [|c m IH]; intros pw s H; [exact H|].
  simpl app in H. apply search_from_cons in H as [_ H].
  rewrite lastw_cons. apply IH. exact H.
Qed.

(** Without a match, [findall] finds nothing and [sub] changes nothing. *)
Lemma findall_from_clean r fuel :
  forall pw s, search_from r pw s = false -> findall_from fuel r pw s = [].
Proof.
  induction fuel as [|fuel IH]; intros pw s H; [reflexivity|].
  simpl. rewrite (search_from_here _ _ _ H).
  destruct s as [|c s]; [reflexivity|].
  apply search_from_cons in H as [_ H]. apply IH. exact H.
Qed.

Lemma sub_from_unchanged r R fuel :
  forall pw s, findall_from fuel r pw s = [] -> sub_from fuel r R pw s = s.
Proof.
  induction fuel as [|fuel IH]; intros pw s H; [reflexivity|].
  simpl in *. destruct (run r pw s) as [|[pw' s'] l].
  - destruct s as [|c s]; [reflexivity|]. f_equal. apply IH. exact H.
  - destruct (length s' <? length s); discriminate.
Qed.

Lemma sub_unchanged r R s : findall r s = [] -> sub r R s = s.
Proof. apply sub_from_unchanged. Qed.

Lemma findall_clean r s : search r s = false -> findall r s = [].
Proof. apply findall_from_clean. Qed.

(** With enough fuel, [sub] replaces matches of the pattern by the token
    and keeps the characters at which no match starts. *)
Lemma sub_from_rewr r R :
  nullable r = false ->
  forall fuel pw s pw',
    length s < fuel ->
    rewr r R (fun pw s => run r pw s = []) pw s pw' (sub_from fuel r R pw s).
Proof.
  intros Hn. induction fuel as [|fuel IH]; intros pw s pw' Hlen; [lia|].
  simpl. destruct (run r pw s) as [|[pw1 s1] l] eqn:Hrun.
  - destruct s as [|c s]; [constructor|].
    apply rewr_keep; [exact Hrun|]. apply IH. simpl in Hlen. lia.
  - assert (Hin : In (pw1, s1) (run r pw s)) by (rewrite Hrun; left; reflexivity).
    apply run_spec in Hin as (u & -> & -> & M).
    pose proof (nullable_sound _ _ _ _ Hn M) as Hne.
    assert (Hl : length s1 < length (u ++ s1))
      by (rewrite length_app; destruct u; [congruence | simpl; lia]).
    apply Nat.ltb_lt in Hl as Hl'. rewrite Hl'.
    apply rewr_tok; [exact Hne | exact M|]. apply IH. lia.
Qed.

(** On a text without a match of [ri], every kept position is one where
    no match of [ri] starts. *)
Lemma rewr_clean r R ri K pw t pw' t' :
  rewr r R K pw t pw' t' ->
  search_from ri pw t = false ->
  rewr r R (fun pw s => run ri pw s = []) pw t pw' t'.
Proof.
  induction 1 as [pw pw'|pw pw' c s s' HK H IH|pw pw' m s s' Hm M H IH];
    intros Hs.
  - constructor.
  - apply search_from_cons in Hs as [Hrun Hs].
    apply rewr_keep; [exact Hrun | apply IH; exact Hs].
  - apply rewr_tok; [exact Hm | exact M|].
    apply IH. apply search_from_app. exact Hs.
Qed.

(* --------------------------------------------------------------------- *)
(** ** Substituting one pattern never creates a match of an earlier one *)
(* --------------------------------------------------------------------- *)

Lemma chars_not_bracket r pw u nw :
  chars_sat not_bracket true r = true -> matches r pw u nw ->
  Forall (fun c => not_bracket c = true) u.
Proof.
  apply chars_sat_sound. intros _ d. apply space_not_bracket.
Qed.

Lemma token_shape R :
  token_ok R = true ->
  exists b, R = ord "[" :: b ++ [ord "]"]
            /\ Forall (fun c => is_mark c = false) b.
Proof.
  unfold token_ok. destruct R as [|c rest]; [discriminate|].
  intros H. apply andb_true_iff in H as [Hc H].
  apply N.eqb_eq in Hc. subst c.
  destruct (rev rest) as [|d body] eqn:Hrev; [discriminate|].
  apply andb_true_iff in H as [Hd Hb].
  apply N.eqb_eq in Hd. subst d.
  exists (rev body). split.
  - f_equal. rewrite <- (rev_involutive rest), Hrev. reflexivity.
  - apply List.Forall_forall. intros x Hx. apply in_rev in Hx.
    rewrite forallb_forall in Hb. apply negb_true_iff. apply Hb. exact Hx.
Qed.

Section OnePass.

(** [ri] is the pattern whose matches are looked for; [rj] the pattern
    being substituted, by the token [R]. *)
Variables (ri rj : regex) (R : pystr).
Hypothesis Hnull : nullable ri = false.
Hypothesis Hchars : chars_sat not_bracket true ri = true.
Hypothesis Hmark : must_have is_mark ri = true.
Hypothesis Htoken : token_ok R = true.
Hypothesis Hcompat :
  no_wordb ri = true \/ (is_bordered ri = true /\ is_bordered rj = true).

(** The condition at kept positions: no match of [ri] starts there. *)
Local Abbreviation K := (fun (pw : bool) (s : pystr) => run ri pw s = []).

(** No match starts at a bracket. *)
Lemma no_match_at_bracket pw c s :
  not_bracket c = false -> run ri pw (c :: s) = [].
Proof.
  intros Hc. apply run_nil_iff. intros u s' Hs M.
  pose proof (nullable_sound _ _ _ _ Hnull M) as Hne.
  pose proof (chars_not_bracket _ _ _ _ Hchars M) as Hall.
  destruct u as [|d u]; [congruence|]. injection Hs as <- _.
  inversion Hall; subst. congruence.
Qed.

Lemma run_at_end pw : run ri pw [] = [].
Proof.
  apply run_nil_iff. intros u s' Hs M.
  pose proof (nullable_sound _ _ _ _ Hnull M) as Hne.
  symmetry in Hs. apply app_eq_nil in Hs as [-> _]. congruence.
Qed.

(** A bracket-free prefix of a text that goes on to a closing bracket
    stops before the bracket. *)
Lemma prefix_before_bracket u :
  forall b s1 s',
    u ++ s1 = b ++ ord "]" :: s' ->
    Forall (fun c => not_bracket c = true) u ->
    exists w, b = u ++ w.
Proof.
  induction u as [|c u IH]; intros b s1 s' Hs Hu; [exists b; reflexivity|].
  inversion Hu as [|? ? Hc Hu']; subst.
  destruct b as [|d b].
  - simpl in Hs. injection Hs as -> _. discriminate.
  - simpl in Hs. injection Hs as -> Hs.
    destruct (IH _ _ _ Hs Hu') as (w & ->). exists w. reflexivity.
Qed.

(** No match of [ri] starts inside a token. *)
Lemma token_body_clean b :
  forall pwx s',
    Forall (fun c => is_mark c = false) b ->
    search_from ri false s' = false ->
    search_from ri pwx (b ++ ord "]" :: s') = false.
Proof.
  induction b as [|c b IH]; intros pwx s' Hb Hs.
  - simpl app. apply search_from_cons. split; [|exact Hs].
    apply no_match_at_bracket. reflexivity.
  - inversion Hb as [|? ? Hc Hb']; subst.
    simpl app. apply search_from_cons. split; [|apply IH; assumption].
    apply run_nil_iff. intros u s1 Hu M.
    pose proof (chars_not_bracket _ _ _ _ Hchars M) as Hall.
    pose proof (must_have_sound _ _ _ _ _ Hmark M) as Hex.
    symmetry in Hu.
    destruct (prefix_before_bracket u (c :: b) s1 s' Hu Hall) as (w & Hw).
    apply List.Exists_exists in Hex as (x & Hx & Hxm).
    rewrite List.Forall_forall in Hb.
    assert (Hin : In x (c :: b)) by (rewrite Hw; apply in_or_app; auto).
    specialize (Hb x Hin). congruence.
Qed.

Lemma token_clean pwx s' :
  search_from ri false s' = false -> search_from ri pwx (R ++ s') = false.
Proof.
  intros Hs. destruct (token_shape R Htoken) as (b & -> & Hb).
  simpl app. apply search_from_cons. split.
  - apply no_match_at_bracket. reflexivity.
  - rewrite <- app_assoc. apply token_body_clean; assumption.
Qed.

Lemma token_last pw : lastw pw R = false.
Proof.
  destruct (token_shape R Htoken) as (b & -> & _).
  rewrite lastw_cons, lastw_app. reflexivity.
Qed.

(** A bracket-free prefix of the rewritten text is a prefix of the
    original text too; what follows it there starts with the same word
    status, or is a match of [rj] that a token replaced. *)
Lemma prefix_transfer pw t pw' t' :
  rewr rj R K pw t pw' t' ->
  forall u rest',
    t' = u ++ rest' ->
    Forall (fun c => not_bracket c = true) u ->
    exists rest,
      t = u ++ rest
      /\ (hdw rest = hdw rest'
          \/ exists m s, m <> [] /\ rest = m ++ s
                         /\ matches rj (lastw pw u) m (hdw s)).
Proof.
  induction 1 as [pw pw'|pw pw' c s s' HK H IH|pw pw' m s s' Hm M H IH];
    intros u rest' Ht Hu.
  - symmetry in Ht. apply app_eq_nil in Ht as [-> ->].
    exists []. split; [reflexivity | left; reflexivity].
  - destruct u as [|d u].
    + simpl in Ht. subst rest'. exists (c :: s).
      split; [reflexivity | left; reflexivity].
    + simpl in Ht. injection Ht as <- Ht.
      inversion Hu as [|? ? Hd Hu']; subst.
      destruct (IH u rest' eq_refl Hu') as (rest & -> & Hrest).
      exists rest. split; [reflexivity | exact Hrest].
  - destruct u as [|d u].
    + simpl in Ht. subst rest'. exists (m ++ s). split; [reflexivity|].
      right. exists m, s. auto.
    + exfalso. destruct (token_shape R Htoken) as (b & HR & _).
      rewrite HR in Ht. simpl in Ht. injection Ht as <- _.
      inversion Hu; subst. discriminate.
Qed.

(** The heart of the argument: after the substitution no match of [ri]
    starts anywhere, provided none starts at a kept position of the
    original text. *)
Lemma rewr_no_match pw t pw' t' :
  rewr rj R K pw t pw' t' ->
  no_wordb ri = true \/ pw = pw' \/ hdw t = false ->
  search_from ri pw' t' = false.
Proof.
  induction 1 as [pw pw'|pw pw' c s s' HK H IH|pw pw' m s s' Hm M H IH];
    intros Hctx.
  - apply search_from_nil. apply run_at_end.
  - apply search_from_cons. split; [|apply IH; auto].
    apply run_nil_iff. intros u rest' Hu Mi.
    pose proof (nullable_sound _ _ _ _ Hnull Mi) as Hne.
    pose proof (chars_not_bracket _ _ _ _ Hchars Mi) as Hall.
    destruct (prefix_transfer pw (c :: s) pw' (c :: s')
                (rewr_keep _ _ _ _ _ _ _ _ HK H) u rest' Hu Hall)
      as (rest & Ht & Hrest).
    rewrite run_nil_iff in HK.
    apply (HK u rest Ht).
    destruct (no_wordb ri) eqn:Hnw.
    + eapply no_wordb_sound; [exact Hnw | exact Mi].
    + destruct Hcompat as [Hc|[Hbi Hbj]]; [discriminate|].
      destruct (is_bordered_sound _ _ _ _ Hbi Mi)
        as (Hpw' & Hnw' & Hfirst & Hlast & _).
      assert (Hpw : pw = false).
      { destruct Hctx as [Hc|[Hc|Hc]]; [discriminate | congruence |].
        destruct u as [|d u]; [congruence|]. injection Ht as <- _.
        simpl in Hc, Hfirst. congruence. }
      assert (Hrest0 : hdw rest = false).
      { destruct Hrest as [Hr|(m & s0 & Hm & -> & Mj)]; [congruence|].
        destruct (is_bordered_sound _ _ _ _ Hbj Mj) as (Hl & _).
        rewrite (lastw_nonempty pw false u Hne) in Hl. congruence. }
      rewrite Hpw, Hrest0. rewrite Hpw', Hnw' in Mi. exact Mi.
  - apply token_clean. rewrite token_last in IH. apply IH.
    destruct (no_wordb ri) eqn:Hnw; [left; reflexivity|].
    destruct Hcompat as [Hc|[_ Hbj]]; [discriminate|].
    destruct (is_bordered_sound _ _ _ _ Hbj M) as (_ & Hs & _).
    right. right. exact Hs.
Qed.

End OnePass.

(* --------------------------------------------------------------------- *)
(** ** A whole catalog *)
(* --------------------------------------------------------------------- *)

Lemma pattern_ok_parts r R :
  pattern_ok r R = true ->
  nullable r = false /\ chars_sat not_bracket true r = true
  /\ must_have is_mark r = true
  /\ (no_wordb r = true \/ is_bordered r = true) /\ token_ok R = true.
Proof.
  unfold pattern_ok. rewrite !andb_true_iff, orb_true_iff, negb_true_iff.
  tauto.
Qed.

(** Substituting [rj] leaves a text without match of [ri] without one. *)
Lemma sub_keeps_clean ri rj R Ri x :
  pattern_ok ri Ri = true -> pattern_ok rj R = true ->
  no_wordb ri = true \/ is_bordered rj = true ->
  search ri x = false -> search ri (sub rj R x) = false.
Proof.
  intros Hi Hj Hc Hs.
  destruct (pattern_ok_parts _ _ Hi) as (Hn & Hch & Hm & Hb & _).
  destruct (pattern_ok_parts _ _ Hj) as (Hnj & _ & _ & _ & Ht).
  unfold search, sub.
  apply (rewr_no_match ri rj R Hn Hch Hm Ht) with (pw := false) (t := x).
  - destruct Hb as [Hb|Hb]; [left; exact Hb|].
    destruct Hc as [Hc|Hc]; [left; exact Hc | right; split; assumption].
  - eapply rewr_clean; [|exact Hs]. apply sub_from_rewr; [exact Hnj | lia].
  - right. left. reflexivity.
Qed.

(** After its own substitution a pattern has no match left. *)
Lemma sub_cleans r R x :
  pattern_ok r R = true -> search r (sub r R x) = false.
Proof.
  intros Hok.
  destruct (pattern_ok_parts _ _ Hok) as (Hn & Hch & Hm & Hb & Ht).
  unfold search, sub.
  apply (rewr_no_match r r R Hn Hch Hm Ht) with (pw := false) (t := x).
  - destruct Hb as [Hb|Hb]; [left; exact Hb | right; split; exact Hb].
  - apply sub_from_rewr; [exact Hn | lia].
  - right. left. reflexivity.
Qed.

Lemma catalog_ok_patterns ps :
  catalog_ok ps = true ->
  forall r R, In (r, R) ps -> pattern_ok r R = true.
Proof.
  induction ps as [|[r0 R0] ps IH]; intros Hok r R Hin; [destruct Hin|].
  simpl in Hok. apply andb_true_iff in Hok as [Hok Hrest].
  apply andb_true_iff in Hok as [Hp _].
  destruct Hin as [[= <- <-]|Hin]; [exact Hp | exact (IH Hrest r R Hin)].
Qed.

Lemma sub_all_keeps_clean ri Ri ps :
  forall x,
    pattern_ok ri Ri = true ->
    (forall r R, In (r, R) ps -> pattern_ok r R = true) ->
    no_wordb ri = true \/ forallb (fun q => is_bordered (fst q)) ps = true ->
    search ri x = false -> search ri (sub_all ps x) = false.
Proof.
  induction ps as [|[r0 R0] ps IH]; intros x Hi Hps Hc Hs; [exact Hs|].
  unfold sub_all. cbn [fold_left fst snd]. apply IH.
  - exact Hi.
  - intros r R Hin. apply Hps. right. exact Hin.
  - destruct Hc as [Hc|Hc]; [left; exact Hc|].
    simpl in Hc. apply andb_true_iff in Hc as [_ Hc]. right. exact Hc.
  - eapply sub_keeps_clean; [exact Hi | apply Hps; left; reflexivity | | exact Hs].
    destruct Hc as [Hc|Hc]; [left; exact Hc|].
    simpl in Hc. apply andb_true_iff in Hc as [Hc _]. right. exact Hc.
Qed.

(** After the substitutions of a well-formed catalog, no pattern of the
    catalog matches anywhere in the text. *)
Lemma sub_all_clean ps :
  catalog_ok ps = true ->
  forall x r R, In (r, R) ps -> search r (sub_all ps x) = false.
Proof.
  induction ps as [|[r0 R0] ps IH]; intros Hok x r R Hin; [destruct Hin|].
  pose proof (catalog_ok_patterns _ Hok) as Hall.
  simpl in Hok. apply andb_true_iff in Hok as [Hok Hrest].
  apply andb_true_iff in Hok as [Hp Hc].
  unfold sub_all. cbn [fold_left fst snd].
  destruct Hin as [[= <- <-]|Hin].
  - apply (sub_all_keeps_clean r0 R0); [exact Hp | | |].
    + intros r R Hin. apply Hall. right. exact Hin.
    + apply orb_true_iff in Hc. exact Hc.
    + apply sub_cleans. exact Hp.
  - apply (IH Hrest _ r R Hin).
Qed.

End Tables.

End ReFacts.

(* ===================================================================== *)
(** * The PII redaction engine *)
(* ===================================================================== *)

Module PiiFacts.
Import Types Re ReSpec ReFacts Pii PiiSpec RedactionSpec.

Lemma catalog_is_ok : catalog_ok catalog = true.
Proof. vm_compute. reflexivity. Qed.

Section Tables.
Context {U : unicode}.

(** One iteration substitutes the pattern: when [findall] finds nothing,
    [sub] would change nothing. *)
Lemma apply_pattern_result st p :
  l_result (apply_pattern st p)
  = sub (snd (fst p)) (text (snd p)) (l_result st).
Proof.
  destruct p as [[name pattern] replacement]. unfold apply_pattern.
  cbn [fst snd].
  destruct (findall pattern (l_result st)) eqn:Hf; [|reflexivity].
  symmetry. apply sub_unchanged. exact Hf.
Qed.

Lemma loop_result ps :
  forall st,
    l_result (fold_left apply_pattern ps st)
    = sub_all (map (fun p => (snd (fst p), text (snd p))) ps) (l_result st).
Proof.
  induction ps as [|p ps IH]; intros st; [reflexivity|].
  cbn [fold_left map]. rewrite IH, apply_pattern_result. reflexivity.
Qed.

(** On a text that no selected pattern matches the loop does nothing. *)
Lemma loop_clean ps :
  forall st,
    (forall p, In p ps -> search (snd (fst p)) (l_result st) = false) ->
    fold_left apply_pattern ps st = st.
Proof.
  induction ps as [|p ps IH]; intros st Hclean; [reflexivity|].
  cbn [fold_left].
  assert (Hp : apply_pattern st p = st).
  { destruct p as [[name pattern] replacement]. unfold apply_pattern.
    rewrite findall_clean; [reflexivity|].
    apply (Hclean (name, pattern, replacement)). left. reflexivity. }
  rewrite Hp. apply IH. intros q Hq. apply Hclean. right. exact Hq.
Qed.

(** With every pattern selected the redacted text is the result of the
    seven substitutions, in catalog order. *)
Lemma redacted_all x on sel stats :
  select_patterns sel = PII_PATTERNS ->
  redacted (redact_pii x
              (Some {| enabled := on; patterns := sel; log_stats := stats |}))
  = if on then sub_all catalog x else x.
Proof.
  intros Hsel. unfold redact_pii, redact_pii_io. cbn [enabled patterns].
  destruct on; [|reflexivity]. cbn [negb fst redacted].
  rewrite Hsel, loop_result. reflexivity.
Qed.

Lemma redacted_default x :
  redacted (redact_pii x None) = sub_all catalog x.
Proof.
  unfold redact_pii, redact_pii_io. cbn [enabled default_config negb fst
    redacted patterns select_patterns].
  rewrite loop_result. reflexivity.
Qed.

Lemma redacted_is_clean x p :
  In p PII_PATTERNS ->
  search (snd (fst p)) (redacted (redact_pii x None)) = false.
Proof.
  intros Hin. rewrite redacted_default.
  apply (sub_all_clean catalog catalog_is_ok _ _ (text (snd p))).
  unfold catalog. apply in_map_iff. exists p. auto.
Qed.

(** With enough fuel [findall] finds a match wherever [search] sees one. *)
Lemma findall_from_found r fuel :
  forall pw s,
    length s < fuel -> search_from r pw s = true ->
    findall_from fuel r pw s <> [].
Proof.
  induction fuel as [|fuel IH]; intros pw s Hlen Hs; [lia|].
  simpl. simpl in Hs. destruct s as [|c s].
  - simpl in Hs. destruct (run r pw []) as [|[pw' s'] l]; [discriminate|].
    simpl. discriminate.
  - simpl in Hs. destruct (run r pw (c :: s)) as [|[pw' s'] l].
    + apply IH; [simpl in Hlen; lia | exact Hs].
    + destruct (length s' <? length (c :: s)); discriminate.
Qed.

Lemma findall_found r s : search r s = true -> findall r s <> [].
Proof. apply findall_from_found. lia. Qed.

Lemma apply_pattern_clean st p :
  search (pattern_re p) (l_result st) = false -> apply_pattern st p = st.
Proof.
  destruct p as [[name pattern] replacement]. unfold apply_pattern, pattern_re.
  cbn [fst snd]. intros H. rewrite findall_clean; [reflexivity | exact H].
Qed.

Lemma apply_pattern_found st p :
  search (pattern_re p) (l_result st) = true ->
  l_redactions (apply_pattern st p) <> [].
Proof.
  destruct p as [[name pattern] replacement]. unfold apply_pattern, pattern_re.
  cbn [fst snd]. intros H. apply findall_found in H.
  destruct (findall pattern (l_result st)); [congruence|].
  cbn [l_redactions]. destruct (l_redactions st); discriminate.
Qed.

Lemma apply_pattern_keeps_redactions st p :
  l_redactions st <> [] -> l_redactions (apply_pattern st p) <> [].
Proof.
  destruct p as [[name pattern] replacement]. unfold apply_pattern.
  destruct (findall pattern (l_result st)); [auto|].
  cbn [l_redactions]. destruct (l_redactions st); [congruence | discriminate].
Qed.

Lemma loop_keeps_redactions ps :
  forall st, l_redactions st <> [] ->
             l_redactions (fold_left apply_pattern ps st) <> [].
Proof.
  induction ps as [|p ps IH]; intros st H; [exact H|].
  cbn [fold_left]. apply IH. apply apply_pattern_keeps_redactions. exact H.
Qed.

(** The loop records a redaction exactly when one of its patterns matches
    the text it starts from. *)
Lemma loop_detects ps :
  forall st,
    l_redactions st = [] ->
    (0 <? length (l_redactions (fold_left apply_pattern ps st)))%nat
    = existsb (fun p => search (pattern_re p) (l_result st)) ps.
Proof.
  induction ps as [|p ps IH]; intros st Hst.
  - simpl. rewrite Hst. reflexivity.
  - cbn [fold_left existsb].
    destruct (search (pattern_re p) (l_result st)) eqn:Hp.
    + cbn [orb]. apply Nat.ltb_lt.
      pose proof (loop_keeps_redactions ps _ (apply_pattern_found st p Hp)) as H.
      destruct (l_redactions (fold_left apply_pattern ps (apply_pattern st p)));
        [congruence | simpl; lia].
    + cbn [orb]. rewrite (apply_pattern_clean st p Hp). apply IH. exact Hst.
Qed.

Lemma has_pii_detects x on sel stats :
  has_pii (redact_pii x
             (Some {| enabled := on; patterns := sel; log_stats := stats |}))
  = on && existsb (fun p => search (pattern_re p) x) (select_patterns sel).
Proof.
  unfold redact_pii, redact_pii_io. cbn [enabled patterns].
  destruct on; [|reflexivity].
  cbn [negb fst has_pii andb]. rewrite loop_detects by reflexivity.
  reflexivity.
Qed.

Lemma apply_pattern_counted st p : counted st -> counted (apply_pattern st p).
Proof.
  intros [Hiff Hpos]. destruct p as [[name pattern] replacement].
  unfold apply_pattern.
  destruct (findall pattern (l_result st)) as [|m ms] eqn:Hf;
    [split; assumption|].
  split; cbn [l_redactions l_counts].
  - split; intros H.
    + destruct (l_redactions st); discriminate.
    + exfalso. exact (insert_non_empty (l_counts st) name _ H).
  - intros k n Hk. destruct (decide (name = k)) as [->|Hne].
    + rewrite lookup_insert_eq in Hk. injection Hk as <-. simpl. lia.
    + rewrite lookup_insert_ne in Hk by exact Hne. eapply Hpos. exact Hk.
Qed.

Lemma loop_counted ps :
  forall st, counted st -> counted (fold_left apply_pattern ps st).
Proof.
  induction ps as [|p ps IH]; intros st Hst; [exact Hst|].
  cbn [fold_left]. apply IH. apply apply_pattern_counted. exact Hst.
Qed.

End Tables.

(** C4: redaction under the default configuration (enabled, all patterns)
    is idempotent, for every text and whatever the Unicode tables of [\w]
    and [\s], because no pattern of the catalog matches anywhere in a
    redacted text: neither inside a replacement token nor across a token
    and the text left around it. *)
Theorem redact_pii_idempotent (U : unicode) (x : pystr) :
  redacted (redact_pii (redacted (redact_pii x None)) None)
  = redacted (redact_pii x None)
  /\ contains_pii (redacted (redact_pii x None)) None = false.
Proof.
  split.
  - unfold redact_pii at 1. unfold redact_pii_io.
    cbn [enabled default_config negb fst redacted patterns select_patterns].
    rewrite loop_clean; [reflexivity|].
    intros p Hp. cbn [l_result]. apply redacted_is_clean. exact Hp.
  - unfold contains_pii. cbn [select_patterns].
    apply not_true_is_false. intros H. apply existsb_exists in H as (p & Hp & H).
    rewrite (redacted_is_clean x p Hp) in H. discriminate.
Qed.

(** C8: for every input and every configuration, [has_pii] holds exactly
    when the list of redactions is not empty, and the list of redactions
    is not empty exactly when the counts are not empty, every recorded
    count being positive. *)
Theorem redact_pii_result_invariant (U : unicode) (content : pystr) config :
  (has_pii (redact_pii content config) = true
   <-> redactions (redact_pii content config) <> [])
  /\ (redactions (redact_pii content config) <> []
      <-> (counts (redact_pii content config) <> ∅
           /\ forall k n,
                counts (redact_pii content config) !! k = Some n -> 0 < n)).
Proof.
  unfold redact_pii, redact_pii_io.
  destruct (negb (enabled match config with
                          | Some c => c
                          | None => default_config
                          end)).
  - cbn [fst has_pii redactions counts]. split.
    + split; [discriminate | congruence].
    + split; [congruence | intros [H _]; congruence].
  - cbn [fst has_pii redactions counts].
    set (st := fold_left apply_pattern _ _).
    assert (Hst : counted st).
    { apply loop_counted. split; [tauto|]. cbn [l_counts]. intros k n Hk.
      rewrite lookup_empty in Hk. discriminate. }
    destruct Hst as [Hiff Hpos]. split.
    + rewrite Nat.ltb_lt. destruct (l_redactions st) as [|a l]; simpl; split;
        intros H; try lia; congruence.
    + split.
      * intros Hne. split; [|exact Hpos]. intros He. apply Hne, Hiff, He.
      * intros [Hne _] He. apply Hne, Hiff, He.
Qed.

Lemma select_unknown names :
  names <> [] ->
  (forall n, In n names -> ~ In n get_available_patterns) ->
  select_patterns (Some names) = [].
Proof.
  intros Hne Hun. destruct names as [|n0 names]; [congruence|].
  unfold select_patterns.
  set (l := n0 :: names) in *.
  assert (Hno : forall n, In n get_available_patterns -> name_in n l = false).
  { intros n Hn. apply not_true_is_false. intros H. unfold name_in in H.
    apply existsb_exists in H as (x & Hx & He).
    apply String.eqb_eq in He. subst x. exact (Hun n Hx Hn). }
  unfold PII_PATTERNS. cbn [List.filter fst snd].
  rewrite !Hno; [reflexivity| | | | | | |]; unfold get_available_patterns;
    simpl; tauto.
Qed.

(** C10: an empty [patterns] list selects the whole catalog, exactly as an
    absent one does: the redacted text is then the result of the seven
    substitutions of the catalog, in its order, and [has_pii] tells
    whether one of the seven patterns matches the input.  A non-empty list
    of unknown names selects no pattern: [redact_pii] then returns the
    input unchanged with [has_pii = false].  [contains_pii] selects its
    patterns the same way: with an empty list it searches the input for
    each of the seven patterns, with unknown names for none. *)
Theorem empty_selection_is_all_unknown_is_none (U : unicode)
  (content : pystr) (on stats : bool) (names : list string) :
  names <> [] ->
  (forall n, In n names -> ~ In n get_available_patterns) ->
  select_patterns (Some []) = PII_PATTERNS
  /\ redact_pii content
       (Some {| enabled := on; patterns := Some []; log_stats := stats |})
     = redact_pii content
         (Some {| enabled := on; patterns := None; log_stats := stats |})
  /\ redacted (redact_pii content
                 (Some {| enabled := on; patterns := Some [];
                          log_stats := stats |}))
     = (if on then sub_all catalog content else content)
  /\ has_pii (redact_pii content
                (Some {| enabled := on; patterns := Some [];
                         log_stats := stats |}))
     = on && existsb (fun p => search (pattern_re p) content) PII_PATTERNS
  /\ select_patterns (Some names) = []
  /\ redact_pii content
       (Some {| enabled := on; patterns := Some names; log_stats := stats |})
     = {| redacted := content; redactions := []; counts := ∅;
          has_pii := false |}
  /\ contains_pii content (Some []) = contains_pii content None
  /\ contains_pii content (Some [])
     = existsb (fun p => search (pattern_re p) content) PII_PATTERNS
  /\ contains_pii content (Some names) = false.
Proof.
  intros Hne Hun. split; [reflexivity|]. split; [reflexivity|].
  split; [apply redacted_all; reflexivity|].
  split; [apply has_pii_detects|].
  split; [exact (select_unknown names Hne Hun)|]. split.
  - unfold redact_pii, redact_pii_io. cbn [enabled negb patterns].
    destruct on; [|reflexivity]. cbn [negb].
    rewrite (select_unknown names Hne Hun). reflexivity.
  - split; [reflexivity|]. split; [reflexivity|]. unfold contains_pii.
    rewrite (select_unknown names Hne Hun). reflexivity.
Qed.

(** On [mail bob@example.com] the empty selection redacts the address; the
    unknown name [passport] leaves it. *)
Lemma empty_selection_is_all_unknown_is_none_witness :
  (select_patterns (Some []) = PII_PATTERNS
   /\ redact_pii (U := latin1) "mail bob@example.com"
        (Some {| enabled := true; patterns := Some []; log_stats := false |})
      = redact_pii (U := latin1) "mail bob@example.com"
          (Some {| enabled := true; patterns := None; log_stats := false |})
   /\ redacted (redact_pii (U := latin1) "mail bob@example.com"
                  (Some {| enabled := true; patterns := Some [];
                           log_stats := false |}))
      = sub_all (U := latin1) catalog "mail bob@example.com"
   /\ has_pii (redact_pii (U := latin1) "mail bob@example.com"
                 (Some {| enabled := true; patterns := Some [];
                          log_stats := false |}))
      = true && existsb (fun p => search (U := latin1) (pattern_re p)
                                    "mail bob@example.com") PII_PATTERNS
   /\ select_patterns (Some ["passport"]) = []
   /\ redact_pii (U := latin1) "mail bob@example.com"
        (Some {| enabled := true; patterns := Some ["passport"];
                 log_stats := false |})
      = {| redacted := "mail bob@example.com"; redactions := []; counts := ∅;
           has_pii := false |}
   /\ contains_pii (U := latin1) "mail bob@example.com" (Some [])
      = contains_pii (U := latin1) "mail bob@example.com" None
   /\ contains_pii (U := latin1) "mail bob@example.com" (Some [])
      = existsb (fun p => search (U := latin1) (pattern_re p)
                            "mail bob@example.com") PII_PATTERNS
   /\ contains_pii (U := latin1) "mail bob@example.com" (Some ["passport"])
      = false)
  /\ sub_all (U := latin1) catalog "mail bob@example.com"
     = text "mail [EMAIL_REDACTED]"
  /\ existsb (fun p => search (U := latin1) (pattern_re p)
                         "mail bob@example.com") PII_PATTERNS = true.
Proof.
  split.
  - apply (empty_selection_is_all_unknown_is_none latin1
             "mail bob@example.com" true false ["passport"]).
    + discriminate.
    + intros n [<-|[]]. vm_compute. intuition discriminate.
  - split; vm_compute; reflexivity.
Defined.

End PiiFacts.

(* ===================================================================== *)
(** * The request executor and the prompt fetch service *)
(* ===================================================================== *)

Module ClientFacts.
Import Types Net Client ClientSpec ExecutorSpec.

Lemma length_snoc {A} (l : list A) (x : A) : length (l ++ [x]) = S (length l).
Proof. rewrite length_app. simpl. lia. Qed.

Lemma calls_issue t req w :
  calls (snd (issue t req w)) = calls w ++ [req].
Proof. reflexivity. Qed.

(** Valid arguments pass the three checks of [get_prompt]. *)
Lemma get_prompt_valid self t key version w :
  valid_key key -> valid_version version ->
  get_prompt self t key version w =
    match attempts self t (prompt_request self key version)
            (Z.to_nat (retries self)) 0 None w with
    | (Ok data, w') => (from_dict data, w')
    | (Raise e, w') => (Raise e, w')
    end.
Proof.
  intros [Hne Hlen] Hv. unfold get_prompt.
  destruct (String.eqb_spec key "") as [->|_]; [congruence|].
  destruct (Nat.ltb_spec 256 (String.length key)) as [Hlt|_]; [lia|].
  assert (Hchk : match version with
                 | Some v => negb (is_int v) || (int_value v <? 1)%Z
                 | None => false
                 end = false).
  { destruct version as [v|]; [|reflexivity].
    destruct v as [ |b|z| | | | ]; simpl in Hv; try contradiction.
    - subst b. reflexivity.
    - simpl. apply Z.ltb_ge. exact Hv. }
  rewrite Hchk. reflexivity.
Qed.

(** The wait between two attempts: the loop goes on after the sleep, if
    one is due, unless its delay cannot be computed. *)
Lemma backoff_step self attempt (A : World -> result json * World) w1 :
  (if (Z.of_nat attempt <? retries self - 1)%Z then
     match _get_backoff_delay attempt with
     | Ok delay => A (sleep delay w1)
     | Raise x => (Raise x, w1)
     end
   else A w1)
  = if overflows self attempt then (Raise (EOther "OverflowError"), w1)
    else A (if (Z.of_nat attempt <? retries self - 1)%Z
            then sleep attempt w1 else w1).
Proof.
  unfold overflows, _get_backoff_delay.
  destruct (Z.of_nat attempt <? retries self - 1)%Z,
           (1024 <=? Z.of_nat attempt)%Z; reflexivity.
Qed.

(** No delay overflows while the attempt index is below 1024. *)
Lemma overflows_below self attempt :
  (Z.of_nat attempt < 1024)%Z -> overflows self attempt = false.
Proof.
  intros H. unfold overflows. apply andb_false_iff. right.
  apply Z.leb_gt. exact H.
Qed.

(** ... nor when at most 1025 attempts are configured. *)
Lemma overflows_small self attempt :
  (retries self <= 1025)%Z -> overflows self attempt = false.
Proof.
  intros H. unfold overflows.
  destruct (Z.of_nat attempt <? retries self - 1)%Z eqn:Hlt; [|reflexivity].
  apply Z.ltb_lt in Hlt. apply Z.leb_gt. lia.
Qed.

(** One iteration of the loop on a retryable outcome. *)
Lemma attempts_retry self t req n attempt le w e :
  retry_error (t (length (calls w)) req) = Some e ->
  attempts self t req (S n) attempt le w =
  if overflows self attempt
  then (Raise (EOther "OverflowError"), snd (issue t req w))
  else attempts self t req n (S attempt) (Some e)
         (if (Z.of_nat attempt <? retries self - 1)%Z
          then sleep attempt (snd (issue t req w))
          else snd (issue t req w)).
Proof.
  intros He. simpl. unfold retry_error in He.
  destruct (t (length (calls w)) req) as [r|msg|msg]; try discriminate.
  - destruct ((500 <=? resp_status r) && (resp_status r <=? 599))%Z eqn:H5;
      [|discriminate].
    injection He as <-.
    apply andb_true_iff in H5 as [Hlo Hhi].
    apply Z.leb_le in Hlo. apply Z.leb_le in Hhi.
    replace ((400 <=? resp_status r) && (resp_status r <? 500))%Z with false
      by (symmetry; apply andb_false_iff; right; apply Z.ltb_ge; lia).
    unfold is_success.
    replace ((200 <=? resp_status r) && (resp_status r <=? 299))%Z with false
      by (symmetry; apply andb_false_iff; right; apply Z.leb_gt; lia).
    apply (backoff_step self attempt
             (attempts self t req n (S attempt)
                (Some (server_error (resp_status r))))).
  - injection He as <-.
    apply (backoff_step self attempt
             (attempts self t req n (S attempt) (Some (network_error msg)))).
Qed.


Lemma retry_error_500 b :
  retry_error (Responded {| resp_status := 500; resp_body := b |})
  = Some (server_error 500).
Proof. reflexivity. Qed.

(** C1: with [retries = 3], a transport answering HTTP 500 to the first two
    calls and HTTP 200 with a body that decodes to a prompt to the third,
    [get_prompt] returns the decoded prompt after exactly three calls and
    two backoff sleeps (after attempts 0 and 1, none after the success). *)
Theorem get_prompt_succeeds_on_third_attempt
  self t key version w b1 b2 body p :
  retries self = 3%Z ->
  valid_key key -> valid_version version ->
  (forall req, t (length (calls w)) req
     = Responded {| resp_status := 500; resp_body := b1 |}) ->
  (forall req, t (S (length (calls w))) req
     = Responded {| resp_status := 500; resp_body := b2 |}) ->
  (forall req, t (S (S (length (calls w)))) req
     = Responded {| resp_status := 200; resp_body := Some body |}) ->
  from_dict body = Ok p ->
  exists w',
    get_prompt self t key version w = (Ok p, w')
    /\ calls w' = calls w ++ repeat (prompt_request self key version) 3
    /\ sleeps w' = sleeps w ++ [0; 1].
Proof.
  intros Hr Hk Hv H0 H1 H2 Hp.
  rewrite (get_prompt_valid _ _ _ _ _ Hk Hv), Hr.
  change (Z.to_nat 3) with 3.
  set (req := prompt_request self key version).
  rewrite (attempts_retry _ _ _ _ _ _ _ (server_error 500))
    by (rewrite H0; apply retry_error_500).
  rewrite (overflows_below self 0) by reflexivity.
  rewrite Hr. change (Z.of_nat 0 <? 3 - 1)%Z with true. cbv iota.
  rewrite (attempts_retry _ _ _ _ _ _ _ (server_error 500))
    by (cbn [sleep calls snd issue]; rewrite length_snoc, H1;
        apply retry_error_500).
  rewrite (overflows_below self 1) by reflexivity.
  rewrite Hr. change (Z.of_nat 1 <? 3 - 1)%Z with true. cbv iota.
  eexists. split.
  - cbn -[from_dict]. rewrite !length_snoc, H2. cbn -[from_dict].
    rewrite Hp. reflexivity.
  - cbn. rewrite <- !app_assoc. split; reflexivity.
Qed.

Lemma get_prompt_succeeds_on_third_attempt_witness :
  exists w',
    get_prompt (client_with 3) flaky_transport "my-prompt" None world0
      = (Ok {| key := JStr "my-prompt"; name := JStr "Sample";
               version_number := JInt 1; system_prompt := JStr "Be brief.";
               updated_at := JInt 1700000000000;
               description := JNull; purpose := JNull;
               expected_behavior := JNull; input_format := JNull;
               output_format := JNull; constraints := JNull;
               use_cases := JNull; additional_notes := JNull;
               tools_notes := JNull |}, w')
    /\ calls w' = calls world0
         ++ repeat (prompt_request (client_with 3) "my-prompt" None) 3
    /\ sleeps w' = sleeps world0 ++ [0; 1].
Proof.
  apply (get_prompt_succeeds_on_third_attempt (client_with 3) flaky_transport
           "my-prompt" None world0 None None (sample_body "my-prompt")).
  - reflexivity.
  - split; [discriminate | vm_compute; lia].
  - exact I.
  - reflexivity.
  - reflexivity.
  - reflexivity.
  - reflexivity.
Defined.

(** C2: when the attempt raises a timeout, the executor fails with kind
    TIMEOUT after exactly one network call: no further attempt is made and
    no backoff sleep is taken, whatever the configured number of attempts
    (at least one, for an attempt to be made). *)
Theorem timeout_fails_after_one_call
  self t method path params body w msg :
  (1 <= retries self)%Z ->
  t (length (calls w)) (build_request self method path params body)
    = TimeoutException msg ->
  exists w',
    _make_request self t method path params body w
      = (Raise (EForPrompt (timeout_error self)), w')
    /\ code (timeout_error self) = TIMEOUT
    /\ calls w' = calls w ++ [build_request self method path params body]
    /\ sleeps w' = sleeps w.
Proof.
  intros Hr Ht. unfold _make_request.
  destruct (Z.to_nat (retries self)) as [|n] eqn:Hn; [lia|].
  eexists. split; [|split; [|split]].
  - simpl. rewrite Ht. reflexivity.
  - reflexivity.
  - reflexivity.
  - reflexivity.
Qed.

Lemma timeout_fails_after_one_call_witness :
  exists w',
    _make_request (client_with 3) timeout_transport "GET" "/api/prompts"
      None None world0
      = (Raise (EForPrompt (timeout_error (client_with 3))), w')
    /\ code (timeout_error (client_with 3)) = TIMEOUT
    /\ calls w' = calls world0
         ++ [build_request (client_with 3) "GET" "/api/prompts" None None]
    /\ sleeps w' = sleeps world0.
Proof.
  apply (timeout_fails_after_one_call (client_with 3) timeout_transport
           "GET" "/api/prompts" None None world0 "timed out").
  - vm_compute. discriminate.
  - reflexivity.
Defined.

Lemma backoffs_all self n :
  (Z.of_nat (S n) = retries self)%Z -> backoffs self 0 (S n) = seq 0 n.
Proof.
  intros Hr. unfold backoffs. rewrite seq_S, List.filter_app. simpl.
  replace (Z.of_nat n <? retries self - 1)%Z with false
    by (symmetry; apply Z.ltb_ge; lia).
  rewrite app_nil_r. apply List.forallb_filter_id. apply forallb_forall.
  intros a Ha. apply in_seq in Ha. apply Z.ltb_lt. lia.
Qed.





(** C6: a key that is empty or longer than 256 characters, or a supplied
    version that is not a positive integer, makes [get_prompt] fail with
    kind INVALID_INPUT and status 400 before any network call: the world
    is returned as it was. *)
Theorem get_prompt_rejects_invalid_input self t key version w :
  key = "" \/ 256 < String.length key
  \/ (exists v, version = Some v /\ ~ positive_int v) ->
  exists e,
    get_prompt self t key version w = (Raise (EForPrompt e), w)
    /\ code e = INVALID_INPUT /\ status_code e = 400%Z.
Proof.
  intros H. unfold get_prompt.
  destruct (String.eqb_spec key "") as [Hk|Hk];
    [eexists; split; [reflexivity | split; reflexivity]|].
  destruct (Nat.ltb_spec 256 (String.length key)) as [Hl|Hl];
    [eexists; split; [reflexivity | split; reflexivity]|].
  destruct H as [H|[H|(v & -> & Hv)]]; [contradiction | lia |].
  assert (Hchk : negb (is_int v) || (int_value v <? 1)%Z = true).
  { destruct v as [ |b|z| | | | ]; simpl in *; try reflexivity.
    - destruct b; [exfalso; apply Hv; reflexivity | reflexivity].
    - apply Z.ltb_lt. lia. }
  rewrite Hchk. eexists. split; [reflexivity | split; reflexivity].
Qed.

Lemma get_prompt_rejects_invalid_input_witness :
  exists e,
    get_prompt (client_with 3) flaky_transport "" (Some (JInt 0)) world0
      = (Raise (EForPrompt e), world0)
    /\ code e = INVALID_INPUT /\ status_code e = 400%Z.
Proof.
  apply (get_prompt_rejects_invalid_input (client_with 3) flaky_transport
           "" (Some (JInt 0)) world0).
  left. reflexivity.
Defined.

(** The batches of [get_prompts] cover the key list, in order. *)
Lemma batches_cover {A} (n : nat) :
  forall keys : list A,
    length keys <= n * CONCURRENCY_LIMIT ->
    concat (map (fun i => firstn CONCURRENCY_LIMIT (skipn i keys))
                (map (fun k => k * CONCURRENCY_LIMIT) (seq 0 n))) = keys.
Proof.
  induction n as [|n IH]; intros keys Hlen.
  - destruct keys; [reflexivity | simpl in Hlen; lia].
  - cbn [seq map concat]. rewrite <- seq_shift, !map_map.
    transitivity (firstn CONCURRENCY_LIMIT keys ++ skipn CONCURRENCY_LIMIT keys);
      [|apply firstn_skipn].
    apply (f_equal2 (@app A)); [reflexivity|].
    etransitivity; [|apply (IH (skipn CONCURRENCY_LIMIT keys))].
    + rewrite map_map. f_equal. apply map_ext. intros k.
      rewrite skipn_skipn. f_equal. f_equal. unfold CONCURRENCY_LIMIT. lia.
    + rewrite length_skipn. unfold CONCURRENCY_LIMIT in *. lia.
Qed.

Lemma range_step_covers (len : nat) :
  len <= ((len + CONCURRENCY_LIMIT - 1) / CONCURRENCY_LIMIT)
           * CONCURRENCY_LIMIT.
Proof.
  unfold CONCURRENCY_LIMIT.
  pose proof (Nat.div_mod_eq (len + 5 - 1) 5) as Hd.
  pose proof (Nat.mod_upper_bound (len + 5 - 1) 5) as Hm. lia.
Qed.

Lemma fetch_batch_app self t version b1 b2 :
  forall acc w,
    fetch_batch self t version (b1 ++ b2) acc w =
    match fetch_batch self t version b1 acc w with
    | (Ok acc', w') => fetch_batch self t version b2 acc' w'
    | (Raise e, w') => (Raise e, w')
    end.
Proof.
  induction b1 as [|k b1 IH]; intros acc w; [reflexivity|].
  simpl. destruct (get_prompt self t k version w) as [[p|[e|c]] w'];
    try apply IH. reflexivity.
Qed.

Lemma fetch_batches_concat self t version keys starts :
  forall acc w,
    fetch_batches self t version keys starts acc w =
    fetch_batch self t version
      (concat (map (fun i => firstn CONCURRENCY_LIMIT (skipn i keys)) starts))
      acc w.
Proof.
  induction starts as [|i more IH]; intros acc w; [reflexivity|].
  cbn [fetch_batches map concat]. rewrite fetch_batch_app.
  destruct (fetch_batch self t version
              (firstn CONCURRENCY_LIMIT (skipn i keys)) acc w)
    as [[acc'|e] w']; [apply IH | reflexivity].
Qed.

Lemma get_prompts_unfold self t keys version w :
  get_prompts self t keys version w = fetch_batch self t version keys ∅ w.
Proof.
  unfold get_prompts, range_step.
  rewrite fetch_batches_concat, batches_cover; [reflexivity|].
  apply range_step_covers.
Qed.

(** The loop over the keys: a key enters the mapping when its fetch
    succeeds and is skipped when its fetch raises a [ForPromptError]. *)
Lemma fetch_batch_dom self t version (ok : string -> bool) batch :
  forall (acc : gmap string Prompt) w,
    (forall k w0, In k batch -> ok k = true ->
       exists p w1, get_prompt self t k version w0 = (Ok p, w1)) ->
    (forall k w0, In k batch -> ok k = false ->
       exists e w1, get_prompt self t k version w0 = (Raise (EForPrompt e), w1)) ->
    exists m w',
      fetch_batch self t version batch acc w = (Ok m, w')
      /\ forall k, k ∈ dom m <-> k ∈ dom acc \/ (In k batch /\ ok k = true).
Proof.
  induction batch as [|key rest IH]; intros acc w Hok Hfail.
  - exists acc, w. split; [reflexivity|]. intros k. simpl. tauto.
  - simpl. destruct (ok key) eqn:Hkey.
    + destruct (Hok key w (or_introl eq_refl) Hkey) as (p & w1 & ->).
      destruct (IH (<[key := p]> acc) w1) as (m & w' & -> & Hdom).
      { intros k w0 Hin. apply Hok. right. exact Hin. }
      { intros k w0 Hin. apply Hfail. right. exact Hin. }
      exists m, w'. split; [reflexivity|]. intros k.
      rewrite Hdom, dom_insert_L, elem_of_union, elem_of_singleton.
      split.
      * intros [[->|H]|[H1 H2]]; auto.
      * intros [H|[[<-|H1] H2]]; auto.
    + destruct (Hfail key w (or_introl eq_refl) Hkey) as (e & w1 & ->).
      destruct (IH acc w1) as (m & w' & -> & Hdom).
      { intros k w0 Hin. apply Hok. right. exact Hin. }
      { intros k w0 Hin. apply Hfail. right. exact Hin. }
      exists m, w'. split; [reflexivity|]. intros k. rewrite Hdom.
      split.
      * intros [H|[H1 H2]]; auto.
      * intros [H|[[<-|H1] H2]]; auto. congruence.
Qed.

(** C7: when the keys split into those whose fetch succeeds ([ok]) and
    those whose fetch fails with a [ForPromptError] of any kind,
    [get_prompts] returns, without raising, a mapping whose key set is
    exactly the succeeding keys. *)
Theorem get_prompts_keeps_succeeding_keys
  self t keys version (ok : string -> bool) w :
  (forall k w0, In k keys -> ok k = true ->
     exists p w1, get_prompt self t k version w0 = (Ok p, w1)) ->
  (forall k w0, In k keys -> ok k = false ->
     exists e w1, get_prompt self t k version w0 = (Raise (EForPrompt e), w1)) ->
  exists m w',
    get_prompts self t keys version w = (Ok m, w')
    /\ forall k, k ∈ dom m <-> (In k keys /\ ok k = true).
Proof.
  intros Hok Hfail. rewrite get_prompts_unfold.
  destruct (fetch_batch_dom self t version ok keys ∅ w Hok Hfail)
    as (m & w' & Hrun & Hdom).
  exists m, w'. split; [exact Hrun|]. intros k. rewrite Hdom, dom_empty_L.
  split; [intros [H|H]; [set_solver | exact H] | auto].
Qed.

Lemma get_prompts_keeps_succeeding_keys_witness :
  exists m w',
    get_prompts (client_with 3) (keyed_transport unknown_keys) seven_keys
      None world0 = (Ok m, w')
    /\ forall k, k ∈ dom m <-> (In k seven_keys /\ known k = true).
Proof.
  apply (get_prompts_keeps_succeeding_keys (client_with 3)
           (keyed_transport unknown_keys) seven_keys None known world0).
  - intros k w0 Hin Hk. simpl in Hin.
    destruct Hin as [<-|[<-|[<-|[<-|[<-|[<-|[<-|[]]]]]]]];
      try discriminate Hk; eexists; eexists; reflexivity.
  - intros k w0 Hin Hk. simpl in Hin.
    destruct Hin as [<-|[<-|[<-|[<-|[<-|[<-|[<-|[]]]]]]]];
      try discriminate Hk; eexists; eexists; reflexivity.
Defined.







End ClientFacts.

(* ===================================================================== *)
(** * The trace logger *)
(* ===================================================================== *)

Module LoggerFacts.
Import Types Net Logger LoggerSpec.

Lemma dict_get_set k v items :
  dict_get k (dict_set k v items) = Some v.
Proof.
  induction items as [|[k' v'] items IH]; simpl.
  - rewrite String.eqb_refl. reflexivity.
  - destruct (String.eqb k k') eqn:Hk; simpl; rewrite ?String.eqb_refl, ?Hk;
      [reflexivity | exact IH].
Qed.

Lemma or_uuid_calls gen a w : calls (snd (or_uuid gen a w)) = calls w.
Proof. destruct a as [[|c s]|]; reflexivity. Qed.

Lemma redact_phone_call (U : Re.unicode) :
  Pii.redact_pii "call 555-123-4567"
    (Some {| enabled := true; patterns := None; log_stats := false |})
  = {| redacted := "call [PHONE_REDACTED]";
       redactions := ["phone: 1 instance(s)"];
       counts := {["phone" := 1]};
       has_pii := true |}.
Proof. vm_compute. reflexivity. Qed.

(** C5: with redaction in force, [log] called after [start_trace] with
    role "user" and content "call 555-123-4567" posts one payload whose
    content is "call [PHONE_REDACTED]" and whose metadata holds, under
    [pii_redactions], the list with "phone: 1 instance(s)". *)
Theorem log_redacts_phone_number (U : Re.unicode)
  gen t self prompt_key trace_id version_number a w tid self1 w1 :
  should_redact self a = true ->
  start_trace gen self prompt_key trace_id version_number w = (tid, self1, w1) ->
  exists res self2 w2 payload meta,
    log gen t self1 "user" "call 555-123-4567" a w1 = (res, self2, w2)
    /\ calls w2 = calls w ++ [log_request_of self payload]
    /\ dict_get "role" payload = Some (JStr "user")
    /\ dict_get "content" payload = Some (JStr "call [PHONE_REDACTED]")
    /\ dict_get "metadata" payload = Some (JDict meta)
    /\ dict_get "pii_redactions" meta
       = Some (JList [JStr "phone: 1 instance(s)"]).
Proof.
  intros Hred Hstart. unfold start_trace in Hstart.
  pose proof (or_uuid_calls gen trace_id w) as Hc1.
  destruct (or_uuid gen trace_id w) as [tid0 w0].
  injection Hstart as <- <- <-. cbn [snd] in Hc1.
  unfold log.
  pose proof (or_uuid_calls gen
    (_trace_id (set_trace self (Some tid0) (Some prompt_key) version_number))
    w0) as Hc2.
  destruct (or_uuid gen _ w0) as [tid1 w2]. cbn [snd] in Hc2.
  change (should_redact
            (set_trace self (Some tid0) (Some prompt_key) version_number) a)
    with (should_redact self a).
  rewrite Hred. unfold redact_step. rewrite redact_phone_call.
  cbn [redacted has_pii redactions map].
  set (meta := dict_set "pii_redactions" _ _).
  cbn [issue]. rewrite Hc2, Hc1.
  set (payload := build_payload _ tid1 "user" "call [PHONE_REDACTED]" a
                    (Some meta)).
  assert (Hpay : dict_get "role" payload = Some (JStr "user")
                 /\ dict_get "content" payload
                    = Some (JStr "call [PHONE_REDACTED]")
                 /\ dict_get "metadata" payload = Some (JDict meta)).
  { unfold payload, build_payload.
    cbn [set_trace _prompt_key _version_number source].
    destruct version_number, (model a), (input_tokens a), (output_tokens a),
      (duration_ms a); repeat split; reflexivity. }
  destruct Hpay as (Hrole & Hcontent & Hmeta).
  destruct (t _ _) as [r|msg|msg];
    [destruct (is_success (resp_status r))| |];
    (do 3 eexists; exists payload, meta;
     split; [reflexivity|]; split; [reflexivity|];
     split; [exact Hrole|]; split; [exact Hcontent|];
     split; [exact Hmeta | apply dict_get_set]).
Qed.

Lemma log_redacts_phone_number_witness :
  exists res self2 w2 payload meta,
    log (U := Re.latin1) sample_uuids accepting_transport
      (set_trace sample_logger (Some "trace-0") (Some "my-prompt") None)
      "user" "call 555-123-4567" no_args
      {| calls := []; sleeps := []; uuids := 1 |} = (res, self2, w2)
    /\ calls w2 = calls world0 ++ [log_request_of sample_logger payload]
    /\ dict_get "role" payload = Some (JStr "user")
    /\ dict_get "content" payload = Some (JStr "call [PHONE_REDACTED]")
    /\ dict_get "metadata" payload = Some (JDict meta)
    /\ dict_get "pii_redactions" meta
       = Some (JList [JStr "phone: 1 instance(s)"]).
Proof.
  apply (log_redacts_phone_number Re.latin1 sample_uuids accepting_transport
           sample_logger "my-prompt" None None no_args world0 "trace-0").
  - reflexivity.
  - vm_compute. reflexivity.
Defined.

End LoggerFacts.

(* ===================================================================== *)
(** * More on the request executor *)
(* ===================================================================== *)

Module ExecutorFacts.
Import Types Net Client ClientSpec ClientFacts ExecutorSpec.

Lemma repeat_snoc {A} (x : A) n : repeat x n ++ [x] = repeat x (S n).
Proof. induction n as [|n IH]; [reflexivity|]. simpl. rewrite IH. reflexivity. Qed.

Lemma after_attempt_calls self t req attempt w :
  calls (after_attempt self t req attempt w) = calls w ++ [req].
Proof.
  unfold after_attempt. destruct (Z.of_nat attempt <? retries self - 1)%Z;
    reflexivity.
Qed.

Lemma after_attempt_uuids self t req attempt w :
  uuids (after_attempt self t req attempt w) = uuids w.
Proof.
  unfold after_attempt. destruct (Z.of_nat attempt <? retries self - 1)%Z;
    reflexivity.
Qed.

Lemma after_attempt_sleeps self t req attempt w :
  sleeps (after_attempt self t req attempt w)
  = sleeps w ++ backoffs self attempt 1.
Proof.
  unfold after_attempt, backoffs. simpl.
  destruct (Z.of_nat attempt <? retries self - 1)%Z; simpl;
    [reflexivity | now rewrite app_nil_r].
Qed.

Lemma backoffs_cons self attempt k :
  backoffs self attempt (S k)
  = backoffs self attempt 1 ++ backoffs self (S attempt) k.
Proof.
  unfold backoffs. simpl.
  destruct (Z.of_nat attempt <? retries self - 1)%Z; reflexivity.
Qed.

(** While more attempts are configured, every attempt so far was followed
    by its backoff sleep. *)
Lemma backoffs_below self k :
  (Z.of_nat k < retries self)%Z -> backoffs self 0 k = seq 0 k.
Proof.
  intros Hk. unfold backoffs. apply List.forallb_filter_id.
  apply forallb_forall. intros a Ha. apply in_seq in Ha. apply Z.ltb_lt. lia.
Qed.

Lemma backoffs_upto self m :
  m <= Z.to_nat (retries self) ->
  backoffs self 0 m = seq 0 (Nat.min m (Z.to_nat (retries self) - 1)).
Proof.
  induction m as [|m IH]; intros Hm; [reflexivity|].
  unfold backoffs in *. rewrite seq_S, List.filter_app, IH by lia.
  cbn [List.filter Nat.add].
  destruct (Z.ltb_spec (Z.of_nat m) (retries self - 1)) as [Hlt|Hge].
  - replace (Nat.min m (Z.to_nat (retries self) - 1)) with m by lia.
    replace (Nat.min (S m) (Z.to_nat (retries self) - 1)) with (S m) by lia.
    rewrite seq_S. reflexivity.
  - rewrite app_nil_r. f_equal. lia.
Qed.

(** One iteration on an outcome the loop records: the loop goes on,
    unless the delay of the sleep that is due cannot be computed. *)
Lemma attempts_recorded self t req n attempt le w e :
  recorded (t (length (calls w)) req) = Some e ->
  attempts self t req (S n) attempt le w
  = if overflows self attempt
    then (Raise (EOther "OverflowError"), snd (issue t req w))
    else attempts self t req n (S attempt) (Some e)
           (after_attempt self t req attempt w).
Proof.
  intros He. simpl. unfold recorded in He. unfold after_attempt.
  destruct (t (length (calls w)) req) as [r|msg|msg]; try discriminate.
  - destruct ((400 <=? resp_status r) && (resp_status r <? 500))%Z;
      [discriminate|].
    destruct (is_success (resp_status r)); [discriminate|].
    injection He as <-.
    apply (backoff_step self attempt
             (attempts self t req n (S attempt)
                (Some (server_error (resp_status r))))).
  - injection He as <-.
    apply (backoff_step self attempt
             (attempts self t req n (S attempt) (Some (network_error msg)))).
Qed.

(** [k] recorded outcomes in a row take the loop [k] iterations further. *)
Lemma attempts_prefix self t req k :
  forall n attempt le w,
    (forall i, i < k -> overflows self (attempt + i) = false) ->
    (forall i, i < k -> recorded (t (length (calls w) + i) req) <> None) ->
    exists le' wk,
      attempts self t req (k + n) attempt le w
      = attempts self t req n (attempt + k) le' wk
      /\ le' = match k with
               | O => le
               | S i => recorded (t (length (calls w) + i) req)
               end
      /\ calls wk = calls w ++ repeat req k
      /\ sleeps wk = sleeps w ++ backoffs self attempt k
      /\ uuids wk = uuids w.
Proof.
  induction k as [|k IH]; intros n attempt le w Hov Hall.
  - exists le, w. rewrite Nat.add_0_r. unfold backoffs. simpl.
    rewrite !app_nil_r. auto.
  - destruct (recorded (t (length (calls w)) req)) as [e|] eqn:He.
    2:{ exfalso. apply (Hall 0); [lia|]. rewrite Nat.add_0_r. exact He. }
    cbn [Nat.add]. rewrite (attempts_recorded _ _ _ _ _ _ _ _ He).
    replace (overflows self attempt) with false
      by (symmetry; rewrite <- (Nat.add_0_r attempt); apply Hov; lia).
    destruct (IH n (S attempt) (Some e) (after_attempt self t req attempt w))
      as (le' & wk & Hrun & Hle & Hc & Hs & Hu).
    { intros i Hi. replace (S attempt + i) with (attempt + S i) by lia.
      apply Hov. lia. }
    { intros i Hi. rewrite after_attempt_calls, length_snoc.
      replace (S (length (calls w)) + i) with (length (calls w) + S i) by lia.
      apply Hall. lia. }
    exists le', wk. split; [|split; [|split; [|split]]].
    + rewrite Hrun. f_equal. lia.
    + rewrite Hle. destruct k as [|i].
      * rewrite Nat.add_0_r, He. reflexivity.
      * rewrite after_attempt_calls, length_snoc. f_equal. f_equal. lia.
    + rewrite Hc, after_attempt_calls, <- app_assoc. reflexivity.
    + rewrite Hs, after_attempt_sleeps, <- app_assoc, <- backoffs_cons.
      reflexivity.
    + rewrite Hu. apply after_attempt_uuids.
Qed.

(** The same, from the start of [_make_request], when attempt [k] is
    still one of the configured ones and the delays of the sleeps before
    it can be computed. *)
Lemma make_request_prefix self t method path params body w k :
  (Z.of_nat k < retries self)%Z ->
  (Z.of_nat k <= 1024)%Z ->
  (forall i, i < k ->
     recorded (t (length (calls w) + i)
                 (build_request self method path params body)) <> None) ->
  exists n le' wk,
    _make_request self t method path params body w
    = attempts self t (build_request self method path params body)
        (S n) k le' wk
    /\ calls wk = calls w ++ repeat (build_request self method path params body) k
    /\ sleeps wk = sleeps w ++ seq 0 k
    /\ uuids wk = uuids w.
Proof.
  intros Hk Hk' Hall. unfold _make_request.
  set (req := build_request self method path params body) in *.
  destruct (attempts_prefix self t req k
              (S (Z.to_nat (retries self) - S k)) 0 None w)
    as (le' & wk & Hrun & _ & Hc & Hs & Hu); [|exact Hall|].
  { intros i Hi. apply overflows_below. simpl. lia. }
  exists (Z.to_nat (retries self) - S k), le', wk.
  replace (k + S (Z.to_nat (retries self) - S k))
    with (Z.to_nat (retries self)) in Hrun by lia.
  rewrite (backoffs_below self k Hk) in Hs. auto.
Qed.

(** X1: the first success is returned.  When the first [k] attempts end in
    outcomes the loop records (a transport failure, or a status that is
    neither 4xx nor a success) and attempt [k], still a configured one,
    is answered by a success status with a JSON body, [_make_request]
    returns that body after exactly [k + 1] calls and [k] backoff sleeps,
    those of attempts 0 to [k - 1].  [k] is at most 1024: the delay of a
    sleep after attempt 1024 or a later one cannot be computed. *)
Theorem first_success_is_returned
  self t method path params body w k st j :
  (Z.of_nat k < retries self)%Z ->
  (Z.of_nat k <= 1024)%Z ->
  (forall i, i < k ->
     recorded (t (length (calls w) + i)
                 (build_request self method path params body)) <> None) ->
  t (length (calls w) + k) (build_request self method path params body)
    = Responded {| resp_status := st; resp_body := Some j |} ->
  is_success st = true ->
  exists w',
    _make_request self t method path params body w = (Ok j, w')
    /\ calls w' = calls w
         ++ repeat (build_request self method path params body) (S k)
    /\ sleeps w' = sleeps w ++ seq 0 k.
Proof.
  intros Hk Hk' Hall Ht Hs.
  destruct (make_request_prefix self t method path params body w k Hk Hk' Hall)
    as (n & le' & wk & -> & Hc & Hsl & _).
  set (req := build_request self method path params body) in *.
  assert (Hlen : length (calls wk) = length (calls w) + k)
    by (rewrite Hc, length_app, repeat_length; reflexivity).
  eexists. split.
  - simpl. rewrite Hlen, Ht. cbn [resp_status resp_body]. rewrite Hs.
    unfold is_success in Hs. apply andb_true_iff in Hs as [Hlo Hhi].
    apply Z.leb_le in Hlo. apply Z.leb_le in Hhi.
    replace ((400 <=? st) && (st <? 500))%Z with false
      by (symmetry; apply andb_false_iff; left; apply Z.leb_gt; lia).
    reflexivity.
  - cbn [calls sleeps]. rewrite Hc, Hsl, <- app_assoc, repeat_snoc. auto.
Qed.

Lemma first_success_is_returned_witness :
  exists w',
    _make_request (client_with 3) recovering_transport "GET" "/api/prompts"
      None None world0 = (Ok (sample_body "my-prompt"), w')
    /\ calls w' = calls world0
         ++ repeat (build_request (client_with 3) "GET" "/api/prompts" None None) 2
    /\ sleeps w' = sleeps world0 ++ seq 0 1.
Proof.
  apply (first_success_is_returned (client_with 3) recovering_transport
           "GET" "/api/prompts" None None world0 1 200).
  - vm_compute. reflexivity.
  - vm_compute. discriminate.
  - intros i Hi. assert (i = 0) as -> by lia. vm_compute. discriminate.
  - reflexivity.
  - reflexivity.
Defined.

(** X2: a timeout ends the loop wherever it occurs.  After [k] recorded
    outcomes, a timeout at attempt [k] (still a configured one, and at
    most attempt 1024, up to which every backoff delay can be computed)
    makes [_make_request] raise TIMEOUT with status 408 after [k + 1]
    calls; the attempts that remain are not made and no sleep follows the
    timeout. *)
Theorem timeout_ends_the_loop
  self t method path params body w k msg :
  (Z.of_nat k < retries self)%Z ->
  (Z.of_nat k <= 1024)%Z ->
  (forall i, i < k ->
     recorded (t (length (calls w) + i)
                 (build_request self method path params body)) <> None) ->
  t (length (calls w) + k) (build_request self method path params body)
    = TimeoutException msg ->
  exists w',
    _make_request self t method path params body w
      = (Raise (EForPrompt (timeout_error self)), w')
    /\ status_code (timeout_error self) = 408%Z
    /\ calls w' = calls w
         ++ repeat (build_request self method path params body) (S k)
    /\ sleeps w' = sleeps w ++ seq 0 k.
Proof.
  intros Hk Hk' Hall Ht.
  destruct (make_request_prefix self t method path params body w k Hk Hk' Hall)
    as (n & le' & wk & -> & Hc & Hsl & _).
  set (req := build_request self method path params body) in *.
  assert (Hlen : length (calls wk) = length (calls w) + k)
    by (rewrite Hc, length_app, repeat_length; reflexivity).
  eexists. split; [|split].
  - simpl. rewrite Hlen, Ht. reflexivity.
  - reflexivity.
  - cbn [calls sleeps]. rewrite Hc, Hsl, <- app_assoc, repeat_snoc. auto.
Qed.

Lemma timeout_ends_the_loop_witness :
  exists w',
    _make_request (client_with 3) redirect_then_timeout "GET" "/api/prompts"
      None None world0
      = (Raise (EForPrompt (timeout_error (client_with 3))), w')
    /\ status_code (timeout_error (client_with 3)) = 408%Z
    /\ calls w' = calls world0
         ++ repeat (build_request (client_with 3) "GET" "/api/prompts" None None) 2
    /\ sleeps w' = sleeps world0 ++ seq 0 1.
Proof.
  apply (timeout_ends_the_loop (client_with 3) redirect_then_timeout
           "GET" "/api/prompts" None None world0 1 "timed out").
  - vm_compute. reflexivity.
  - vm_compute. discriminate.
  - intros i Hi. assert (i = 0) as -> by lia. vm_compute. discriminate.
  - reflexivity.
Defined.

(** X3: a 4xx answer is never retried.  After [k] recorded outcomes, a
    response with a 4xx status at attempt [k] (still a configured one, and
    at most attempt 1024, up to which every backoff delay can be
    computed) makes [_make_request] raise at once, after [k + 1] calls:
    kind PROMPT_NOT_FOUND for 404 and
    API_ERROR otherwise, the status of the response, and as message the
    [error] field of the JSON object in the body, "HTTP <status>" when
    the object has no such field, and "Unknown error" when the body is
    not JSON. *)
Theorem client_error_is_raised_at_once
  self t method path params body w k r d :
  (Z.of_nat k < retries self)%Z ->
  (Z.of_nat k <= 1024)%Z ->
  (forall i, i < k ->
     recorded (t (length (calls w) + i)
                 (build_request self method path params body)) <> None) ->
  t (length (calls w) + k) (build_request self method path params body)
    = Responded r ->
  (400 <= resp_status r < 500)%Z ->
  resp_body r = Some (JDict d)
  \/ (resp_body r = None /\ d = [("error", JStr "Unknown error")]) ->
  exists e w',
    _make_request self t method path params body w
      = (Raise (EForPrompt e), w')
    /\ message e = match dict_get "error" d with
                   | Some m => m
                   | None => JStr ("HTTP " +:+ pretty (resp_status r))
                   end
    /\ status_code e = resp_status r
    /\ code e = (if (resp_status r =? 404)%Z then PROMPT_NOT_FOUND
                 else API_ERROR)
    /\ calls w' = calls w
         ++ repeat (build_request self method path params body) (S k)
    /\ sleeps w' = sleeps w ++ seq 0 k.
Proof.
  intros Hk Hk' Hall Ht Hst Hbody.
  destruct (make_request_prefix self t method path params body w k Hk Hk' Hall)
    as (n & le' & wk & -> & Hc & Hsl & _).
  set (req := build_request self method path params body) in *.
  assert (Hlen : length (calls wk) = length (calls w) + k)
    by (rewrite Hc, length_app, repeat_length; reflexivity).
  assert (H4 : ((400 <=? resp_status r) && (resp_status r <? 500))%Z = true)
    by (apply andb_true_iff; split; [apply Z.leb_le | apply Z.ltb_lt]; lia).
  assert (Hce : client_error r
                = EForPrompt
                    {| message := match dict_get "error" d with
                                  | Some m => m
                                  | None => JStr ("HTTP " +:+ pretty (resp_status r))
                                  end;
                       status_code := resp_status r;
                       code := if (resp_status r =? 404)%Z
                               then PROMPT_NOT_FOUND else API_ERROR |}).
  { unfold client_error. destruct Hbody as [->|[-> ->]]; reflexivity. }
  do 2 eexists. split; [|split; [|split; [|split]]].
  - simpl. rewrite Hlen, Ht, H4, Hce. reflexivity.
  - reflexivity.
  - reflexivity.
  - reflexivity.
  - cbn [calls sleeps]. rewrite Hc, Hsl, <- app_assoc, repeat_snoc. auto.
Qed.

Lemma client_error_is_raised_at_once_witness :
  exists e w',
    _make_request (client_with 3) busy_then_missing "GET" "/api/prompts"
      None None world0 = (Raise (EForPrompt e), w')
    /\ message e = match dict_get "error" [("error", JStr "not found")] with
                   | Some m => m
                   | None => JStr ("HTTP " +:+ pretty 404%Z)
                   end
    /\ status_code e = 404%Z
    /\ code e = (if (404 =? 404)%Z then PROMPT_NOT_FOUND else API_ERROR)
    /\ calls w' = calls world0
         ++ repeat (build_request (client_with 3) "GET" "/api/prompts" None None) 2
    /\ sleeps w' = sleeps world0 ++ seq 0 1.
Proof.
  apply (client_error_is_raised_at_once (client_with 3) busy_then_missing
           "GET" "/api/prompts" None None world0 1
           {| resp_status := 404;
              resp_body := Some (JDict [("error", JStr "not found")]) |}).
  - vm_compute. reflexivity.
  - vm_compute. discriminate.
  - intros i Hi. assert (i = 0) as -> by lia. vm_compute. discriminate.
  - reflexivity.
  - cbn. lia.
  - left. reflexivity.
Defined.

Lemma attempts_bounded self t req n :
  forall attempt le w,
    exists c m,
      c <= n
      /\ calls (snd (attempts self t req n attempt le w))
         = calls w ++ repeat req c
      /\ sleeps (snd (attempts self t req n attempt le w))
         = sleeps w ++ backoffs self attempt m
      /\ ((m = c /\ c = n) \/ S m = c)
      /\ uuids (snd (attempts self t req n attempt le w)) = uuids w.
Proof.
  induction n as [|n IH]; intros attempt le w.
  - exists 0, 0. simpl. unfold backoffs. simpl. rewrite !app_nil_r.
    repeat split; auto.
  - assert (Hstop : forall res,
              exists c m,
                c <= S n
                /\ calls (snd (res : result json, snd (issue t req w)))
                   = calls w ++ repeat req c
                /\ sleeps (snd (res, snd (issue t req w)))
                   = sleeps w ++ backoffs self attempt m
                /\ ((m = c /\ c = S n) \/ S m = c)
                /\ uuids (snd (res, snd (issue t req w))) = uuids w).
    { intros res. exists 1, 0. unfold backoffs. simpl. rewrite app_nil_r.
      repeat split; auto. lia. }
    assert (Hgo : forall e,
              exists c m,
                c <= S n
                /\ calls (snd (attempts self t req n (S attempt) (Some e)
                                 (after_attempt self t req attempt w)))
                   = calls w ++ repeat req c
                /\ sleeps (snd (attempts self t req n (S attempt) (Some e)
                                  (after_attempt self t req attempt w)))
                   = sleeps w ++ backoffs self attempt m
                /\ ((m = c /\ c = S n) \/ S m = c)
                /\ uuids (snd (attempts self t req n (S attempt) (Some e)
                                 (after_attempt self t req attempt w)))
                   = uuids w).
    { intros e.
      destruct (IH (S attempt) (Some e) (after_attempt self t req attempt w))
        as (c & m & Hc & Hcalls & Hsl & Hm & Hu).
      exists (S c), (S m). split; [lia|]. split; [|split; [|split]].
      - rewrite Hcalls, after_attempt_calls, <- app_assoc. reflexivity.
      - rewrite Hsl, after_attempt_sleeps, <- app_assoc, <- backoffs_cons.
        reflexivity.
      - destruct Hm as [[-> ->]|<-]; [left | right]; auto.
      - rewrite Hu. apply after_attempt_uuids. }
    assert (Hnext : forall e,
              exists c m,
                c <= S n
                /\ calls (snd (if overflows self attempt
                               then (Raise (EOther "OverflowError"),
                                     snd (issue t req w))
                               else attempts self t req n (S attempt) (Some e)
                                      (after_attempt self t req attempt w)))
                   = calls w ++ repeat req c
                /\ sleeps (snd (if overflows self attempt
                                then (Raise (EOther "OverflowError"),
                                      snd (issue t req w))
                                else attempts self t req n (S attempt) (Some e)
                                       (after_attempt self t req attempt w)))
                   = sleeps w ++ backoffs self attempt m
                /\ ((m = c /\ c = S n) \/ S m = c)
                /\ uuids (snd (if overflows self attempt
                               then (Raise (EOther "OverflowError"),
                                     snd (issue t req w))
                               else attempts self t req n (S attempt) (Some e)
                                      (after_attempt self t req attempt w)))
                   = uuids w).
    { intros e. destruct (overflows self attempt); [apply Hstop | apply Hgo]. }
    destruct (recorded (t (length (calls w)) req)) as [e|] eqn:He.
    { rewrite (attempts_recorded _ _ _ _ _ _ _ _ He). apply Hnext. }
    simpl. unfold recorded in He.
    destruct (t (length (calls w)) req) as [r|msg|msg].
    + destruct ((400 <=? resp_status r) && (resp_status r <? 500))%Z;
        [apply Hstop|].
      destruct (is_success (resp_status r)); [|discriminate].
      destruct (resp_body r); apply Hstop.
    + apply Hstop.
    + discriminate.
Qed.

(** X4: the executor is bounded.  Whatever the transport answers,
    [_make_request] issues at most [retries] calls, all of them the same
    request, sleeps exactly once between two consecutive calls (after
    attempts 0, 1, ... in order, never after the last call), and draws no
    identifier. *)
Theorem make_request_is_bounded self t method path params body w :
  exists c,
    c <= Z.to_nat (retries self)
    /\ calls (snd (_make_request self t method path params body w))
       = calls w ++ repeat (build_request self method path params body) c
    /\ sleeps (snd (_make_request self t method path params body w))
       = sleeps w ++ seq 0 (c - 1)
    /\ uuids (snd (_make_request self t method path params body w)) = uuids w.
Proof.
  unfold _make_request.
  destruct (attempts_bounded self t
              (build_request self method path params body)
              (Z.to_nat (retries self)) 0 None w)
    as (c & m & Hc & Hcalls & Hsl & Hm & Hu).
  exists c. split; [exact Hc|]. split; [exact Hcalls|]. split; [|exact Hu].
  rewrite Hsl, backoffs_upto by lia. f_equal. f_equal. lia.
Qed.

(** X5: with no attempt configured ([retries <= 0]) [get_prompt] on valid
    arguments fails with the RETRY_EXHAUSTED fallback (status 500) without
    any network call. *)
Theorem get_prompt_without_attempts self t key version w :
  (retries self <= 0)%Z -> valid_key key -> valid_version version ->
  get_prompt self t key version w
  = (Raise (EForPrompt retry_exhausted), w)
  /\ code retry_exhausted = RETRY_EXHAUSTED
  /\ status_code retry_exhausted = 500%Z.
Proof.
  intros Hr Hk Hv. rewrite (get_prompt_valid _ _ _ _ _ Hk Hv).
  replace (Z.to_nat (retries self)) with 0 by lia.
  repeat split.
Qed.

Lemma get_prompt_without_attempts_witness :
  get_prompt (client_with 0) flaky_transport "my-prompt" None world0
  = (Raise (EForPrompt retry_exhausted), world0)
  /\ code retry_exhausted = RETRY_EXHAUSTED
  /\ status_code retry_exhausted = 500%Z.
Proof.
  apply (get_prompt_without_attempts (client_with 0) flaky_transport
           "my-prompt" None world0).
  - vm_compute. discriminate.
  - split; [discriminate | vm_compute; lia].
  - exact I.
Defined.

(** X6: a status that is neither 2xx nor 4xx is treated as a server
    error, 1xx and 3xx included.  When every configured attempt (at least
    one, and at most 1025, the range in which every backoff delay can be
    computed) is answered with such a status, [_make_request] raises
    SERVER_ERROR carrying the status of the last response, after one call
    per attempt and a sleep after every attempt but the last. *)
Theorem other_statuses_are_server_errors
  self t method path params body w :
  (1 <= retries self <= 1025)%Z ->
  (forall i, i < Z.to_nat (retries self) ->
     exists r,
       t (length (calls w) + i) (build_request self method path params body)
         = Responded r
       /\ is_success (resp_status r) = false
       /\ ~ (400 <= resp_status r < 500)%Z) ->
  exists r w',
    t (length (calls w) + (Z.to_nat (retries self) - 1))
      (build_request self method path params body) = Responded r
    /\ _make_request self t method path params body w
       = (Raise (EForPrompt (server_error (resp_status r))), w')
    /\ code (server_error (resp_status r)) = SERVER_ERROR
    /\ status_code (server_error (resp_status r)) = resp_status r
    /\ calls w' = calls w
         ++ repeat (build_request self method path params body)
              (Z.to_nat (retries self))
    /\ sleeps w' = sleeps w ++ seq 0 (Z.to_nat (retries self) - 1).
Proof.
  intros Hr Hall. unfold _make_request.
  set (req := build_request self method path params body) in *.
  assert (Hrec : forall i r,
            t (length (calls w) + i) req = Responded r ->
            is_success (resp_status r) = false ->
            ~ (400 <= resp_status r < 500)%Z ->
            recorded (t (length (calls w) + i) req)
            = Some (server_error (resp_status r))).
  { intros i r Ht Hs H4. rewrite Ht. unfold recorded. rewrite Hs.
    replace ((400 <=? resp_status r) && (resp_status r <? 500))%Z with false;
      [reflexivity|].
    symmetry. apply andb_false_iff.
    destruct (Z.leb_spec 400 (resp_status r)); [right | left; reflexivity].
    apply Z.ltb_ge. lia. }
  destruct (Z.to_nat (retries self)) as [|n] eqn:Hn; [lia|].
  destruct (attempts_prefix self t req (S n) 0 0 None w)
    as (le' & wk & Hrun & Hle & Hc & Hs & _).
  { intros i _. apply overflows_small. lia. }
  { intros i Hi. destruct (Hall i Hi) as (r & Ht & Hsr & H4).
    rewrite (Hrec i r Ht Hsr H4). discriminate. }
  destruct (Hall n (Nat.lt_succ_diag_r n)) as (r & Ht & Hsr & H4).
  rewrite (Hrec n r Ht Hsr H4) in Hle. subst le'.
  exists r, wk. replace (S n - 1) with n by lia.
  split; [exact Ht|]. split.
  - rewrite Nat.add_0_r in Hrun. rewrite Hrun. reflexivity.
  - split; [reflexivity|]. split; [reflexivity|]. split; [exact Hc|].
    rewrite Hs. rewrite (ClientFacts.backoffs_all self n) by lia. reflexivity.
Qed.

Lemma other_statuses_are_server_errors_witness :
  exists r w',
    redirecting_transport
      (length (calls world0) + (Z.to_nat (retries (client_with 3)) - 1))
      (build_request (client_with 3) "GET" "/api/prompts" None None)
      = Responded r
    /\ _make_request (client_with 3) redirecting_transport "GET"
         "/api/prompts" None None world0
       = (Raise (EForPrompt (server_error (resp_status r))), w')
    /\ code (server_error (resp_status r)) = SERVER_ERROR
    /\ status_code (server_error (resp_status r)) = resp_status r
    /\ calls w' = calls world0
         ++ repeat (build_request (client_with 3) "GET" "/api/prompts" None None)
              (Z.to_nat (retries (client_with 3)))
    /\ sleeps w' = sleeps world0 ++ seq 0 (Z.to_nat (retries (client_with 3)) - 1).
Proof.
  apply (other_statuses_are_server_errors (client_with 3) redirecting_transport
           "GET" "/api/prompts" None None world0).
  - vm_compute. split; discriminate.
  - intros i _. exists {| resp_status := 301; resp_body := None |}.
    split; [reflexivity|]. split; [reflexivity|]. cbn. lia.
Defined.

(** X24: the backoff delay overflows.  The delay after attempt 1024 is
    computed from [2 ** 1024], which no float holds: when more than 1025
    attempts are configured and the first 1025 end in outcomes the loop
    records, [_make_request] raises [OverflowError], not a
    [ForPromptError], after exactly 1025 calls and the 1024 sleeps of
    attempts 0 to 1023. *)
Theorem backoff_overflow_ends_the_loop
  self t method path params body w :
  (1026 <= retries self)%Z ->
  (forall i, i <= 1024 ->
     recorded (t (length (calls w) + i)
                 (build_request self method path params body)) <> None) ->
  exists w',
    _make_request self t method path params body w
      = (Raise (EOther "OverflowError"), w')
    /\ calls w' = calls w
         ++ repeat (build_request self method path params body) 1025
    /\ sleeps w' = sleeps w ++ seq 0 1024.
Proof.
  intros Hr Hall.
  destruct (make_request_prefix self t method path params body w 1024)
    as (n & le' & wk & -> & Hc & Hsl & _).
  { change (Z.of_nat 1024) with 1024%Z. lia. }
  { change (Z.of_nat 1024) with 1024%Z. lia. }
  { intros i Hi. apply Hall. apply Nat.lt_le_incl. exact Hi. }
  set (req := build_request self method path params body) in *.
  assert (Hlen : length (calls wk) = length (calls w) + 1024)
    by (rewrite Hc, length_app, repeat_length; reflexivity).
  destruct (recorded (t (length (calls wk)) req)) as [e|] eqn:He.
  2:{ exfalso. apply (Hall 1024 (le_n _)). rewrite <- Hlen. exact He. }
  rewrite (attempts_recorded _ _ _ _ _ _ _ _ He).
  assert (Hov : overflows self 1024 = true).
  { unfold overflows. change (Z.of_nat 1024) with 1024%Z.
    apply andb_true_iff. split; [apply Z.ltb_lt; lia | reflexivity]. }
  rewrite Hov. eexists. split; [reflexivity|].
  cbn [snd issue calls sleeps]. rewrite Hc, Hsl, <- app_assoc.
  split; [|reflexivity]. rewrite (repeat_snoc req 1024). reflexivity.
Qed.

Lemma backoff_overflow_ends_the_loop_witness :
  exists w',
    _make_request (client_with 2000) failing_transport "GET" "/api/prompts"
      None None world0
      = (Raise (EOther "OverflowError"), w')
    /\ calls w' = calls world0
         ++ repeat (build_request (client_with 2000) "GET" "/api/prompts"
                      None None) 1025
    /\ sleeps w' = sleeps world0 ++ seq 0 1024.
Proof.
  apply (backoff_overflow_ends_the_loop (client_with 2000) failing_transport
           "GET" "/api/prompts" None None world0).
  - vm_compute. discriminate.
  - intros i _. vm_compute. discriminate.
Defined.

End ExecutorFacts.

(* ===================================================================== *)
(** * More on the prompt fetch service *)
(* ===================================================================== *)

Module FetchFacts.
Import Types Net Client ClientSpec ClientFacts ExecutorSpec ExecutorFacts.

(** X7: [Prompt.from_dict] on a JSON object either decodes it, and then
    the five required fields were present and every field of the prompt
    is the value stored under its external name ([None] for an absent
    optional field), or raises [KeyError], and then a required field is
    missing.  It never raises a [ForPromptError]. *)
Theorem from_dict_decodes_or_misses_a_field d :
  match from_dict (JDict d) with
  | Ok p =>
      dict_get "key" d = Some (key p)
      /\ dict_get "name" d = Some (name p)
      /\ dict_get "versionNumber" d = Some (version_number p)
      /\ dict_get "systemPrompt" d = Some (system_prompt p)
      /\ dict_get "updatedAt" d = Some (updated_at p)
      /\ description p = dict_get_none "description" d
      /\ purpose p = dict_get_none "purpose" d
      /\ expected_behavior p = dict_get_none "expectedBehavior" d
      /\ input_format p = dict_get_none "inputFormat" d
      /\ output_format p = dict_get_none "outputFormat" d
      /\ constraints p = dict_get_none "constraints" d
      /\ use_cases p = dict_get_none "useCases" d
      /\ additional_notes p = dict_get_none "additionalNotes" d
      /\ tools_notes p = dict_get_none "toolsNotes" d
  | Raise e =>
      e = EOther "KeyError"
      /\ exists k, In k required_fields /\ dict_get k d = None
  end.
Proof.
  unfold from_dict, dict_item, required_fields.
  destruct (dict_get "key" d) eqn:H1;
    [|split; [reflexivity | exists "key"; simpl; auto]].
  destruct (dict_get "name" d) eqn:H2;
    [|split; [reflexivity | exists "name"; simpl; auto]].
  destruct (dict_get "versionNumber" d) eqn:H3;
    [|split; [reflexivity | exists "versionNumber"; simpl; auto]].
  destruct (dict_get "systemPrompt" d) eqn:H4;
    [|split; [reflexivity | exists "systemPrompt"; simpl; auto 6]].
  destruct (dict_get "updatedAt" d) eqn:H5;
    [|split; [reflexivity | exists "updatedAt"; simpl; auto 7]].
  cbn. repeat split; reflexivity.
Qed.

(** The loop over the keys, with the values it stores. *)
Lemma fetch_batch_values self t version (ok : string -> bool)
  (f : string -> Prompt) batch :
  forall (acc : gmap string Prompt) w,
    (forall k w0, In k batch -> ok k = true ->
       exists w1, get_prompt self t k version w0 = (Ok (f k), w1)) ->
    (forall k w0, In k batch -> ok k = false ->
       exists e w1, get_prompt self t k version w0 = (Raise (EForPrompt e), w1)) ->
    exists m w',
      fetch_batch self t version batch acc w = (Ok m, w')
      /\ forall k,
           m !! k = if existsb (String.eqb k) batch && ok k
                    then Some (f k) else acc !! k.
Proof.
  induction batch as [|key rest IH]; intros acc w Hok Hfail.
  - exists acc, w. split; reflexivity.
  - cbn [fetch_batch]. destruct (ok key) eqn:Hkey.
    + destruct (Hok key w (or_introl eq_refl) Hkey) as (w1 & ->).
      destruct (IH (<[key := f key]> acc) w1) as (m & w' & -> & Hm).
      { intros k w0 Hin. apply Hok. right. exact Hin. }
      { intros k w0 Hin. apply Hfail. right. exact Hin. }
      exists m, w'. split; [reflexivity|]. intros k. rewrite Hm.
      cbn [existsb]. destruct (String.eqb_spec k key) as [->|Hne].
      * rewrite Hkey, lookup_insert_eq. cbn.
        destruct (existsb (String.eqb key) rest); reflexivity.
      * rewrite lookup_insert_ne by congruence. reflexivity.
    + destruct (Hfail key w (or_introl eq_refl) Hkey) as (e & w1 & ->).
      destruct (IH acc w1) as (m & w' & -> & Hm).
      { intros k w0 Hin. apply Hok. right. exact Hin. }
      { intros k w0 Hin. apply Hfail. right. exact Hin. }
      exists m, w'. split; [reflexivity|]. intros k. rewrite Hm.
      cbn [existsb]. destruct (String.eqb_spec k key) as [->|Hne];
        [|reflexivity].
      rewrite Hkey, andb_false_r. cbn.
      destruct (existsb (String.eqb key) rest); reflexivity.
Qed.

(** X8: each entry of the mapping [get_prompts] returns is the prompt
    fetched for its key.  When the fetch of every succeeding key [k]
    returns [f k] and every other key fails with a [ForPromptError], the
    mapping sends each succeeding key of the list to [f k] and holds
    nothing else. *)
Theorem get_prompts_maps_keys_to_their_prompts
  self t keys version (ok : string -> bool) (f : string -> Prompt) w :
  (forall k w0, In k keys -> ok k = true ->
     exists w1, get_prompt self t k version w0 = (Ok (f k), w1)) ->
  (forall k w0, In k keys -> ok k = false ->
     exists e w1, get_prompt self t k version w0 = (Raise (EForPrompt e), w1)) ->
  exists m w',
    get_prompts self t keys version w = (Ok m, w')
    /\ forall k,
         m !! k = if existsb (String.eqb k) keys && ok k
                  then Some (f k) else None.
Proof.
  intros Hok Hfail. rewrite get_prompts_unfold.
  destruct (fetch_batch_values self t version ok f keys ∅ w Hok Hfail)
    as (m & w' & Hrun & Hm).
  exists m, w'. split; [exact Hrun|]. intros k. rewrite Hm, lookup_empty.
  reflexivity.
Qed.

Lemma get_prompts_maps_keys_to_their_prompts_witness :
  exists m w',
    get_prompts (client_with 3) (keyed_transport unknown_keys) seven_keys
      None world0 = (Ok m, w')
    /\ forall k,
         m !! k = if existsb (String.eqb k) seven_keys && known k
                  then Some (sample_prompt k) else None.
Proof.
  apply (get_prompts_maps_keys_to_their_prompts (client_with 3)
           (keyed_transport unknown_keys) seven_keys None known sample_prompt
           world0).
  - intros k w0 Hin Hk. simpl in Hin.
    destruct Hin as [<-|[<-|[<-|[<-|[<-|[<-|[<-|[]]]]]]]];
      try discriminate Hk; eexists; reflexivity.
  - intros k w0 Hin Hk. simpl in Hin.
    destruct Hin as [<-|[<-|[<-|[<-|[<-|[<-|[<-|[]]]]]]]];
      try discriminate Hk; eexists; eexists; reflexivity.
Defined.

(** X9: [get_prompts] only suppresses [ForPromptError].  When the keys
    before [k] each succeed or fail with a [ForPromptError] and the fetch
    of [k] raises an exception of another class (a [KeyError] for a body
    without a required field, say), [get_prompts] raises that exception
    where the fetch of [k] left off: the keys after [k] are not fetched
    and no mapping is returned. *)
Theorem get_prompts_propagates_other_exceptions
  self t pre k post version (ok : string -> bool) c w :
  (forall x w0, In x pre -> ok x = true ->
     exists p w1, get_prompt self t x version w0 = (Ok p, w1)) ->
  (forall x w0, In x pre -> ok x = false ->
     exists e w1, get_prompt self t x version w0 = (Raise (EForPrompt e), w1)) ->
  (forall w0, exists w1,
     get_prompt self t k version w0 = (Raise (EOther c), w1)) ->
  exists wp w',
    get_prompt self t k version wp = (Raise (EOther c), w')
    /\ get_prompts self t (pre ++ k :: post) version w
       = (Raise (EOther c), w').
Proof.
  intros Hok Hfail Hk. rewrite get_prompts_unfold, fetch_batch_app.
  destruct (fetch_batch_dom self t version ok pre ∅ w Hok Hfail)
    as (m & wp & -> & _).
  destruct (Hk wp) as (w' & Hrun). exists wp, w'. split; [exact Hrun|].
  cbn [fetch_batch]. rewrite Hrun. reflexivity.
Qed.

Lemma get_prompts_propagates_other_exceptions_witness :
  exists wp w',
    get_prompt (client_with 3) truncated_transport "k1" None wp
      = (Raise (EOther "KeyError"), w')
    /\ get_prompts (client_with 3) truncated_transport ([""] ++ "k1" :: ["k2"])
         None world0
       = (Raise (EOther "KeyError"), w').
Proof.
  apply (get_prompts_propagates_other_exceptions (client_with 3)
           truncated_transport [""] "k1" ["k2"] None (fun _ => false)).
  - intros x w0 _ Hx. discriminate Hx.
  - intros x w0 [<-|[]] _. eexists. eexists. reflexivity.
  - intros w0. eexists. reflexivity.
Defined.

(** X10: whatever the arguments and the transport, the calls [get_prompt]
    issues are at most [retries] copies of one request: a GET of
    [<base_url>/api/prompts] without body, carrying the API key header,
    whose query holds [key] and, when a version is given, [version] as
    text; it sleeps only between two of these calls. *)
Theorem get_prompt_issues_only_its_query self t key version w :
  exists c,
    c <= Z.to_nat (retries self)
    /\ calls (snd (get_prompt self t key version w))
       = calls w ++ repeat (prompt_request self key version) c
    /\ sleeps (snd (get_prompt self t key version w))
       = sleeps w ++ seq 0 (c - 1)
    /\ req_method (prompt_request self key version) = "GET"
    /\ req_url (prompt_request self key version)
       = base_url self +:+ "/api/prompts"
    /\ req_json (prompt_request self key version) = None
    /\ In ("X-API-Key", api_key self)
          (req_headers (prompt_request self key version))
    /\ req_params (prompt_request self key version)
       = Some (("key", key)
               :: match version with
                  | Some v => [("version", str_of_int v)]
                  | None => []
                  end).
Proof.
  assert (Hzero : exists c,
            c <= Z.to_nat (retries self)
            /\ calls w = calls w ++ repeat (prompt_request self key version) c
            /\ sleeps w = sleeps w ++ seq 0 (c - 1)).
  { exists 0. simpl. rewrite !app_nil_r. repeat split. lia. }
  assert (Hshape :
            req_method (prompt_request self key version) = "GET"
            /\ req_url (prompt_request self key version)
               = base_url self +:+ "/api/prompts"
            /\ req_json (prompt_request self key version) = None
            /\ In ("X-API-Key", api_key self)
                  (req_headers (prompt_request self key version))
            /\ req_params (prompt_request self key version)
               = Some (("key", key)
                       :: match version with
                          | Some v => [("version", str_of_int v)]
                          | None => []
                          end)).
  { repeat split. simpl. auto. }
  assert (Hsnd : exists c,
            c <= Z.to_nat (retries self)
            /\ calls (snd (get_prompt self t key version w))
               = calls w ++ repeat (prompt_request self key version) c
            /\ sleeps (snd (get_prompt self t key version w))
               = sleeps w ++ seq 0 (c - 1)).
  { unfold get_prompt.
    destruct (String.eqb key ""); [exact Hzero|].
    destruct (256 <? String.length key); [exact Hzero|].
    destruct (match version with
              | Some v => negb (is_int v) || (int_value v <? 1)%Z
              | None => false
              end); [exact Hzero|].
    destruct (make_request_is_bounded self t "GET" "/api/prompts"
                (Some ([("key", key)] ++
                       match version with
                       | Some v => [("version", str_of_int v)]
                       | None => []
                       end)) None w) as (c & Hc & Hcalls & Hsl & _).
    exists c.
    destruct (_make_request _ _ _ _ _ _ _) as [[data|e] w'];
      cbn [snd] in *; auto. }
  destruct Hsnd as (c & Hc & Hcalls & Hsl). exists c. tauto.
Qed.

End FetchFacts.

(* ===================================================================== *)
(** * More on the trace logger *)
(* ===================================================================== *)

Module TraceFacts.
Import Types Net Logger LoggerSpec LoggerFacts ConfigSpec TraceSpec.

Lemma dict_get_set_other k k' v items :
  k <> k' -> dict_get k (dict_set k' v items) = dict_get k items.
Proof.
  intros Hne. induction items as [|[k0 v0] items IH]; simpl.
  - destruct (String.eqb_spec k k'); [congruence | reflexivity].
  - destruct (String.eqb_spec k' k0) as [->|Hk0]; simpl.
    + destruct (String.eqb_spec k k0); [congruence | reflexivity].
    + destruct (String.eqb k k0); [reflexivity | exact IH].
Qed.

Lemma or_uuid_world gen a w :
  calls (snd (or_uuid gen a w)) = calls w
  /\ sleeps (snd (or_uuid gen a w)) = sleeps w.
Proof. destruct a as [[|c s]|]; split; reflexivity. Qed.

Lemma or_uuid_given gen a w :
  or_uuid gen a w
  = match given a with
    | Some s => (s, w)
    | None => uuid4 gen w
    end.
Proof. destruct a as [[|c s]|]; reflexivity. Qed.

(** The fields of the payload, [None] values removed. *)
Lemma payload_fields self tid role safe a meta :
  let payload := build_payload self tid role safe a meta in
  dict_get "traceId" payload = Some (JStr tid)
  /\ dict_get "promptKey" payload
     = Some (JStr (or_str (_prompt_key self) "unknown"))
  /\ dict_get "versionNumber" payload = option_map JInt (_version_number self)
  /\ dict_get "type" payload = Some (JStr "message")
  /\ dict_get "role" payload = Some (JStr role)
  /\ dict_get "content" payload = Some (JStr safe)
  /\ dict_get "model" payload = option_map jstr (model a)
  /\ dict_get "inputTokens" payload = option_map JInt (input_tokens a)
  /\ dict_get "outputTokens" payload = option_map JInt (output_tokens a)
  /\ dict_get "durationMs" payload = option_map JInt (duration_ms a)
  /\ dict_get "source" payload = Some (JStr (source self))
  /\ dict_get "metadata" payload = option_map JDict meta
  /\ Forall (fun kv => snd kv <> JNull) payload.
Proof.
  unfold build_payload.
  assert (Hnn : Forall (fun kv : string * json => snd kv <> JNull)
                  (List.filter (fun kv => negb (is_none (snd kv)))
                     [("traceId", JStr tid);
                      ("promptKey", JStr (or_str (_prompt_key self) "unknown"));
                      ("versionNumber", opt_int (_version_number self));
                      ("type", JStr "message"); ("role", JStr role);
                      ("content", JStr safe); ("model", opt_str (model a));
                      ("inputTokens", opt_int (input_tokens a));
                      ("outputTokens", opt_int (output_tokens a));
                      ("durationMs", opt_int (duration_ms a));
                      ("source", JStr (source self));
                      ("metadata", opt_dict meta)])).
  { apply List.Forall_forall. intros [k v] Hin. apply filter_In in Hin as [_ Hv].
    simpl in *. destruct v; [discriminate | congruence..]. }
  cbv zeta. repeat split; try exact Hnn;
    destruct (_version_number self), (model a), (input_tokens a),
      (output_tokens a), (duration_ms a), meta; reflexivity.
Qed.

(** [log] unfolded: the identifier, the redaction step, the one call. *)
Lemma log_unfold {U : Re.unicode} gen t self role content a w :
  let tid := trace_id_for gen self w in
  let w0 := snd (or_uuid gen (_trace_id self) w) in
  let self' := set_trace self (Some tid) (_prompt_key self)
                 (_version_number self) in
  let step := redact_step (should_redact self a) content (metadata a) in
  let payload := build_payload self' tid role (fst step) a (snd step) in
  let req := log_request_of self payload in
  log gen t self role content a w
  = (match t (length (calls w)) req with
     | Responded r =>
         if is_success (resp_status r) then Ok tt else Raise (log_error r)
     | TimeoutException msg | RequestError msg =>
         Raise (EForPrompt (network_error msg))
     end,
     self',
     {| calls := calls w ++ [req]; sleeps := sleeps w; uuids := uuids w0 |}).
Proof.
  cbv zeta. unfold log, trace_id_for. rewrite or_uuid_given.
  destruct (given (_trace_id self)) as [s|]; cbn [uuid4 snd fst calls sleeps uuids];
    destruct (redact_step (should_redact self a) content (metadata a))
      as [safe meta]; cbn [fst snd issue calls sleeps uuids];
    unfold log_request_of;
    destruct (t _ _) as [r|msg|msg];
    try destruct (is_success (resp_status r)); reflexivity.
Qed.

(** X11: [log] posts exactly once and never sleeps, whatever the server
    answers.  The payload carries the trace identifier (the active one,
    or a fresh one when no trace is active, which then becomes the active
    one), the prompt key or "unknown", the type marker, the role and the
    source, and none of its values is [None]. *)
Theorem log_posts_one_payload (U : Re.unicode) gen t self role content a w :
  exists payload,
    calls (log gen t self role content a w).2
    = calls w ++ [log_request_of self payload]
    /\ sleeps (log gen t self role content a w).2 = sleeps w
    /\ _trace_id (log gen t self role content a w).1.2
       = Some (trace_id_for gen self w)
    /\ dict_get "traceId" payload = Some (JStr (trace_id_for gen self w))
    /\ dict_get "promptKey" payload
       = Some (JStr (or_str (_prompt_key self) "unknown"))
    /\ dict_get "type" payload = Some (JStr "message")
    /\ dict_get "role" payload = Some (JStr role)
    /\ dict_get "source" payload = Some (JStr (source self))
    /\ Forall (fun kv => snd kv <> JNull) payload.
Proof.
  pose proof (log_unfold gen t self role content a w) as H. cbv zeta in H.
  rewrite H. cbn [fst snd calls sleeps _trace_id set_trace].
  eexists. split; [reflexivity|]. split; [reflexivity|].
  split; [reflexivity|].
  match goal with
  | |- context [build_payload ?s ?i ?r ?c ?x ?m] =>
      pose proof (payload_fields s i r c x m) as P
  end.
  cbv zeta in P. cbn [set_trace _prompt_key _version_number source] in P.
  tauto.
Qed.

(** X12: without redaction (the override is [False], or there is none and
    the logger was configured without it), the payload carries the content
    as given, PII included, and the caller's metadata as given. *)
Theorem log_without_redaction_sends_content_as_is (U : Re.unicode)
  gen t self role content a w :
  should_redact self a = false ->
  exists payload,
    calls (log gen t self role content a w).2
    = calls w ++ [log_request_of self payload]
    /\ dict_get "content" payload = Some (JStr content)
    /\ dict_get "metadata" payload = option_map JDict (metadata a).
Proof.
  intros Hno.
  pose proof (log_unfold gen t self role content a w) as H. cbv zeta in H.
  rewrite H, Hno. cbn [fst snd calls redact_step].
  eexists. split; [reflexivity|].
  match goal with
  | |- context [build_payload ?s ?i ?r ?c ?x ?m] =>
      pose proof (payload_fields s i r c x m) as P
  end.
  cbv zeta in P. tauto.
Qed.

Lemma log_without_redaction_sends_content_as_is_witness :
  exists payload,
    calls (log (U := Re.latin1) sample_uuids accepting_transport sample_logger "user"
             "call 555-123-4567" plain_args world0).2
    = calls world0 ++ [log_request_of sample_logger payload]
    /\ dict_get "content" payload = Some (JStr "call 555-123-4567")
    /\ dict_get "metadata" payload = option_map JDict (metadata plain_args).
Proof.
  apply (log_without_redaction_sends_content_as_is Re.latin1 sample_uuids
           accepting_transport sample_logger "user" "call 555-123-4567"
           plain_args world0).
  reflexivity.
Defined.

(** X13: with redaction in force, the payload carries the redacted text of
    [redact_pii] under its default configuration.  When PII was found the
    metadata is the caller's (or an empty object) with [pii_redactions]
    set to the list of summaries, every other entry being kept; when none
    was found the metadata is the caller's, untouched. *)
Theorem log_with_redaction_merges_summaries (U : Re.unicode)
  gen t self role content a w :
  should_redact self a = true ->
  exists payload,
    calls (log gen t self role content a w).2
    = calls w ++ [log_request_of self payload]
    /\ dict_get "content" payload
       = Some (JStr (redacted (Pii.redact_pii content None)))
    /\ (has_pii (Pii.redact_pii content None) = false ->
        dict_get "metadata" payload = option_map JDict (metadata a))
    /\ (has_pii (Pii.redact_pii content None) = true ->
        exists meta,
          dict_get "metadata" payload = Some (JDict meta)
          /\ dict_get "pii_redactions" meta
             = Some (JList (map jstr (redactions (Pii.redact_pii content None))))
          /\ forall k, k <> "pii_redactions" ->
               dict_get k meta = dict_get k (or_empty (metadata a))).
Proof.
  intros Hyes.
  pose proof (log_unfold gen t self role content a w) as H. cbv zeta in H.
  rewrite H, Hyes. cbn [fst snd calls]. unfold redact_step.
  change (Pii.redact_pii content
            (Some {| enabled := true; patterns := None; log_stats := false |}))
    with (Pii.redact_pii content None).
  cbn [fst snd].
  eexists. split; [reflexivity|].
  match goal with
  | |- context [build_payload ?s ?i ?r ?c ?x ?m] =>
      pose proof (payload_fields s i r c x m) as P
  end.
  cbv zeta in P.
  destruct P as (_ & _ & _ & _ & _ & Hcontent & _ & _ & _ & _ & _ & Hmeta & _).
  split; [exact Hcontent|]. rewrite Hmeta.
  destruct (has_pii (Pii.redact_pii content None)); split; intros Hp;
    try discriminate; [|reflexivity].
  eexists. split; [reflexivity|]. split; [apply dict_get_set|].
  intros k Hk. apply dict_get_set_other. exact Hk.
Qed.

Lemma log_with_redaction_merges_summaries_witness :
  exists payload,
    calls (log (U := Re.latin1) sample_uuids accepting_transport sample_logger "user"
             "mail bob@example.com" tagged_args world0).2
    = calls world0 ++ [log_request_of sample_logger payload]
    /\ dict_get "content" payload
       = Some (JStr (redacted (Pii.redact_pii (U := Re.latin1) "mail bob@example.com" None)))
    /\ (has_pii (Pii.redact_pii (U := Re.latin1) "mail bob@example.com" None) = false ->
        dict_get "metadata" payload = option_map JDict (metadata tagged_args))
    /\ (has_pii (Pii.redact_pii (U := Re.latin1) "mail bob@example.com" None) = true ->
        exists meta,
          dict_get "metadata" payload = Some (JDict meta)
          /\ dict_get "pii_redactions" meta
             = Some (JList (map jstr (redactions
                                        (Pii.redact_pii (U := Re.latin1) "mail bob@example.com" None))))
          /\ forall k, k <> "pii_redactions" ->
               dict_get k meta = dict_get k (or_empty (metadata tagged_args))).
Proof.
  apply (log_with_redaction_merges_summaries Re.latin1 sample_uuids accepting_transport
           sample_logger "user" "mail bob@example.com" tagged_args world0).
  reflexivity.
Defined.

(** X14: the logger reports a timeout like any other transport failure:
    kind NETWORK_ERROR, status 0, message "Network error: " followed by
    the failure's text; the call is not repeated. *)
Theorem log_reports_transport_failures (U : Re.unicode)
  gen t self role content a w o msg :
  (forall req, t (length (calls w)) req = o) ->
  o = TimeoutException msg \/ o = RequestError msg ->
  (log gen t self role content a w).1.1
  = Raise (EForPrompt {| message := JStr ("Network error: " +:+ msg);
                         status_code := 0; code := NETWORK_ERROR |})
  /\ length (calls (log gen t self role content a w).2)
     = S (length (calls w)).
Proof.
  intros Ht Ho.
  pose proof (log_unfold gen t self role content a w) as H. cbv zeta in H.
  rewrite H, Ht. cbn [fst snd calls]. rewrite length_app. simpl.
  split; [|lia]. destruct Ho as [->| ->]; reflexivity.
Qed.

Lemma log_reports_transport_failures_witness :
  (log (U := Re.latin1) sample_uuids silent_transport sample_logger "user" "hello" no_args
     world0).1.1
  = Raise (EForPrompt {| message := JStr ("Network error: " +:+ "timed out");
                         status_code := 0; code := NETWORK_ERROR |})
  /\ length (calls (log (U := Re.latin1) sample_uuids silent_transport sample_logger "user"
                      "hello" no_args world0).2)
     = S (length (calls world0)).
Proof.
  apply (log_reports_transport_failures Re.latin1 sample_uuids silent_transport
           sample_logger "user" "hello" no_args world0
           (TimeoutException "timed out") "timed out").
  - reflexivity.
  - left. reflexivity.
Defined.

(** X15: a response that is not a success makes [log] raise LOG_ERROR
    with the status of the response and, as message, the [error] field of
    the JSON object in the body, or "Failed to log" when the object has
    none or the body is not JSON. *)
Theorem log_reports_refusals (U : Re.unicode) gen t self role content a w r d :
  (forall req, t (length (calls w)) req = Responded r) ->
  is_success (resp_status r) = false ->
  resp_body r = Some (JDict d) \/ (resp_body r = None /\ d = []) ->
  (log gen t self role content a w).1.1
  = Raise (EForPrompt
             {| message := match dict_get "error" d with
                           | Some m => m
                           | None => JStr "Failed to log"
                           end;
                status_code := resp_status r;
                code := LOG_ERROR |}).
Proof.
  intros Ht Hs Hbody.
  pose proof (log_unfold gen t self role content a w) as H. cbv zeta in H.
  rewrite H, Ht, Hs. cbn [fst snd]. unfold log_error.
  destruct Hbody as [->|[-> ->]]; reflexivity.
Qed.

Lemma log_reports_refusals_witness :
  (log (U := Re.latin1) sample_uuids refusing_transport sample_logger "user" "hello" no_args
     world0).1.1
  = Raise (EForPrompt
             {| message := match dict_get "error" [("error", JStr "bad role")] with
                           | Some m => m
                           | None => JStr "Failed to log"
                           end;
                status_code := resp_status
                                 {| resp_status := 422;
                                    resp_body := Some (JDict [("error", JStr "bad role")]) |};
                code := LOG_ERROR |}).
Proof.
  apply (log_reports_refusals Re.latin1 sample_uuids refusing_transport sample_logger
           "user" "hello" no_args world0
           {| resp_status := 422;
              resp_body := Some (JDict [("error", JStr "bad role")]) |}).
  - reflexivity.
  - reflexivity.
  - left. reflexivity.
Defined.

(** X16: [log_request] ends its trace only when the log succeeds.  It
    starts a fresh trace, posts once, and on success returns the
    identifier it drew and leaves the logger without a trace; when [log]
    raises, the exception comes out of [log_request] before [end_trace]
    runs, so the logger is left tracing under the given prompt key. *)
Theorem log_request_ends_trace_only_on_success (U : Re.unicode)
  gen t self prompt_key role content a version_number w o res self' w' :
  (forall req, t (length (calls w)) req = o) ->
  log_request gen t self prompt_key role content a version_number w
  = (res, self', w') ->
  length (calls w') = S (length (calls w))
  /\ if accepted o
     then res = Ok (gen (uuids w))
          /\ is_tracing self' = false
          /\ _prompt_key self' = None /\ _version_number self' = None
     else (exists e, res = Raise e)
          /\ is_tracing self' = true
          /\ _prompt_key self' = Some prompt_key
          /\ _version_number self' = version_number.
Proof.
  intros Ht Hrun. unfold log_request, start_trace in Hrun.
  cbn [or_uuid uuid4] in Hrun.
  match type of Hrun with
  | context [log ?g ?tr ?s ?r ?c ?x ?ww] =>
      pose proof (log_unfold g tr s r c x ww) as H; cbv zeta in H;
      rewrite H in Hrun; clear H
  end.
  cbn [calls] in Hrun. rewrite Ht in Hrun.
  destruct o as [r|msg|msg]; cbn [accepted].
  - destruct (is_success (resp_status r)); injection Hrun as <- <- <-;
      cbn [calls]; rewrite length_app; simpl; (split; [lia|]);
      repeat split; eauto.
  - injection Hrun as <- <- <-. cbn [calls]. rewrite length_app. simpl.
    split; [lia|]. repeat split; eauto.
  - injection Hrun as <- <- <-. cbn [calls]. rewrite length_app. simpl.
    split; [lia|]. repeat split; eauto.
Qed.

Lemma log_request_ends_trace_only_on_success_witness :
  length (calls {| calls := [log_request_of sample_logger
                               (build_payload
                                  (set_trace sample_logger (Some "trace-0")
                                     (Some "my-prompt") None)
                                  "trace-0" "user" "hello" no_args None)];
                   sleeps := []; uuids := 1 |})
  = S (length (calls world0))
  /\ if accepted (TimeoutException "timed out")
     then Raise (EForPrompt (network_error "timed out"))
          = Ok (sample_uuids (uuids world0))
          /\ is_tracing (set_trace sample_logger (Some "trace-0")
                           (Some "my-prompt") None) = false
          /\ _prompt_key (set_trace sample_logger (Some "trace-0")
                            (Some "my-prompt") None) = None
          /\ _version_number (set_trace sample_logger (Some "trace-0")
                                (Some "my-prompt") None) = None
     else (exists e, Raise (EForPrompt (network_error "timed out"))
                     = @Raise string e)
          /\ is_tracing (set_trace sample_logger (Some "trace-0")
                           (Some "my-prompt") None) = true
          /\ _prompt_key (set_trace sample_logger (Some "trace-0")
                            (Some "my-prompt") None) = Some "my-prompt"
          /\ _version_number (set_trace sample_logger (Some "trace-0")
                                (Some "my-prompt") None) = None.
Proof.
  apply (log_request_ends_trace_only_on_success Re.latin1 sample_uuids silent_transport
           sample_logger "my-prompt" "user" "hello" no_args None world0
           (TimeoutException "timed out")).
  - reflexivity.
  - vm_compute. reflexivity.
Defined.

(** X17: the trace lifecycle.  [start_trace] makes no network call, keeps
    a trace identifier that is given and not empty and draws one
    otherwise, and leaves the logger tracing under the given prompt key
    and version; [end_trace] then clears the three fields: the logger is
    what [end_trace] makes of the logger before the trace. *)
Theorem start_trace_then_end_trace
  gen self prompt_key trace_id0 version_number w tid self1 w1 :
  start_trace gen self prompt_key trace_id0 version_number w
  = (tid, self1, w1) ->
  calls w1 = calls w /\ sleeps w1 = sleeps w
  /\ tid = match given trace_id0 with
           | Some s => s
           | None => gen (uuids w)
           end
  /\ uuids w1 = match given trace_id0 with
                | Some _ => uuids w
                | None => S (uuids w)
                end
  /\ trace_id self1 = Some tid /\ is_tracing self1 = true
  /\ _prompt_key self1 = Some prompt_key
  /\ _version_number self1 = version_number
  /\ trace_id (end_trace self1) = None
  /\ is_tracing (end_trace self1) = false
  /\ _prompt_key (end_trace self1) = None
  /\ _version_number (end_trace self1) = None
  /\ end_trace self1 = end_trace self.
Proof.
  unfold start_trace. rewrite or_uuid_given.
  destruct (given trace_id0) as [s|]; cbn [uuid4]; intros [= <- <- <-];
    repeat split.
Qed.

Lemma start_trace_then_end_trace_witness :
  calls {| calls := []; sleeps := []; uuids := 1 |} = calls world0
  /\ sleeps {| calls := []; sleeps := []; uuids := 1 |} = sleeps world0
  /\ "trace-0" = match given (Some "") with
                 | Some s => s
                 | None => sample_uuids (uuids world0)
                 end
  /\ uuids {| calls := []; sleeps := []; uuids := 1 |}
     = match given (Some "") with
       | Some _ => uuids world0
       | None => S (uuids world0)
       end
  /\ trace_id (set_trace sample_logger (Some "trace-0") (Some "my-prompt")
                 (Some 2%Z)) = Some "trace-0"
  /\ is_tracing (set_trace sample_logger (Some "trace-0") (Some "my-prompt")
                   (Some 2%Z)) = true
  /\ _prompt_key (set_trace sample_logger (Some "trace-0") (Some "my-prompt")
                    (Some 2%Z)) = Some "my-prompt"
  /\ _version_number (set_trace sample_logger (Some "trace-0")
                        (Some "my-prompt") (Some 2%Z)) = Some 2%Z
  /\ trace_id (end_trace (set_trace sample_logger (Some "trace-0")
                            (Some "my-prompt") (Some 2%Z))) = None
  /\ is_tracing (end_trace (set_trace sample_logger (Some "trace-0")
                              (Some "my-prompt") (Some 2%Z))) = false
  /\ _prompt_key (end_trace (set_trace sample_logger (Some "trace-0")
                               (Some "my-prompt") (Some 2%Z))) = None
  /\ _version_number (end_trace (set_trace sample_logger (Some "trace-0")
                                   (Some "my-prompt") (Some 2%Z))) = None
  /\ end_trace (set_trace sample_logger (Some "trace-0") (Some "my-prompt")
                  (Some 2%Z)) = end_trace sample_logger.
Proof.
  apply (start_trace_then_end_trace sample_uuids sample_logger "my-prompt"
           (Some "") (Some 2%Z) world0).
  vm_compute. reflexivity.
Defined.

End TraceFacts.

(* ===================================================================== *)
(** * More on the PII redaction engine *)
(* ===================================================================== *)

Module RedactionFacts.
Import Types Re ReSpec ReFacts Pii PiiSpec PiiFacts RedactionSpec.

(** X18: detection agrees with redaction.  For every text and every
    configuration, [redact_pii] reports [has_pii] exactly when redaction
    is enabled and [contains_pii] detects PII in the text under the same
    selection of patterns. *)
Theorem has_pii_agrees_with_contains_pii (U : unicode) (content : pystr) cfg :
  has_pii (redact_pii content (Some cfg))
  = enabled cfg && contains_pii content (patterns cfg).
Proof.
  unfold redact_pii, redact_pii_io, contains_pii.
  destruct (enabled cfg); [|reflexivity].
  cbn [negb fst has_pii andb]. rewrite loop_detects by reflexivity.
  reflexivity.
Qed.

(** X19: a text in which [contains_pii] detects nothing under the
    selection of the configuration is returned as it is, with no
    redaction, no count and [has_pii = false]. *)
Theorem text_without_pii_is_unchanged (U : unicode) (content : pystr)
  on sel stats :
  contains_pii content sel = false ->
  redact_pii content
    (Some {| enabled := on; patterns := sel; log_stats := stats |})
  = {| redacted := content; redactions := []; counts := ∅; has_pii := false |}.
Proof.
  intros Hno. unfold redact_pii, redact_pii_io. cbn [enabled patterns].
  destruct on; [|reflexivity]. cbn [negb fst].
  unfold contains_pii in Hno.
  rewrite loop_clean.
  - reflexivity.
  - intros p Hp. cbn [l_result]. apply not_true_is_false. intros H.
    assert (Hex : existsb (fun p => search (snd (fst p)) content)
                    (select_patterns sel) = true)
      by (apply existsb_exists; exists p; auto).
    congruence.
Qed.

Lemma text_without_pii_is_unchanged_witness :
  redact_pii (U := latin1) "hello, world"
    (Some {| enabled := true; patterns := None; log_stats := false |})
  = {| redacted := "hello, world"; redactions := []; counts := ∅;
       has_pii := false |}.
Proof.
  apply (text_without_pii_is_unchanged latin1 "hello, world" true None false).
  vm_compute. reflexivity.
Defined.

(** A selection of a well-formed catalog is well formed. *)
Lemma catalog_ok_filter (f : string * regex * string -> bool) ps :
  catalog_ok (as_catalog ps) = true ->
  catalog_ok (as_catalog (List.filter f ps)) = true.
Proof.
  induction ps as [|p ps IH]; intros Hok; [reflexivity|].
  simpl in Hok. apply andb_true_iff in Hok as [Hok Hrest].
  apply andb_true_iff in Hok as [Hp Hc].
  assert (Hb : forallb (fun q => is_bordered (fst q)) (as_catalog ps) = true ->
               forallb (fun q => is_bordered (fst q))
                 (as_catalog (List.filter f ps)) = true).
  { clear. induction ps as [|q ps IHps]; intros H; [reflexivity|].
    simpl in H. apply andb_true_iff in H as [Hq H]. simpl.
    destruct (f q); [simpl; rewrite Hq; simpl|]; apply IHps; exact H. }
  simpl. destruct (f p); [|exact (IH Hrest)].
  simpl. rewrite Hp, (IH Hrest). simpl. rewrite andb_true_r.
  apply orb_true_iff in Hc as [Hc|Hc]; apply orb_true_iff;
    [left; exact Hc | right; exact (Hb Hc)].
Qed.

Lemma selection_is_ok sel : catalog_ok (as_catalog (select_patterns sel)) = true.
Proof.
  unfold select_patterns.
  destruct sel as [[|n names]|]; try exact catalog_is_ok.
  apply catalog_ok_filter. exact catalog_is_ok.
Qed.

(** X20: redaction is idempotent under every configuration, whatever
    patterns it selects and whether or not it is enabled, for every text
    and whatever the Unicode tables of [\w] and [\s]: redacting the
    redacted text again, under the same configuration, returns it. *)
Theorem redact_pii_idempotent_for_every_configuration (U : unicode)
  (x : pystr) cfg :
  redacted (redact_pii (redacted (redact_pii x cfg)) cfg)
  = redacted (redact_pii x cfg).
Proof.
  unfold redact_pii, redact_pii_io.
  destruct (negb (enabled match cfg with
                          | Some c => c
                          | None => default_config
                          end)); [reflexivity|].
  cbn [fst redacted].
  set (ps := select_patterns
               (patterns match cfg with
                         | Some c => c
                         | None => default_config
                         end)).
  rewrite (loop_clean ps).
  - reflexivity.
  - intros p Hp. cbn [l_result].
    rewrite loop_result. cbn [l_result].
    apply (sub_all_clean (as_catalog ps) (selection_is_ok _) _ _
             (text (snd p))).
    unfold as_catalog. apply in_map_iff. exists p. auto.
Qed.

Lemma catalog_names_distinct : List.NoDup (map pattern_name PII_PATTERNS).
Proof.
  unfold PII_PATTERNS, pattern_name. cbn [map fst].
  repeat (apply List.NoDup_cons; [simpl; intuition discriminate|]).
  apply List.NoDup_nil.
Qed.

Lemma selected_names_distinct sel :
  List.NoDup (map pattern_name (select_patterns sel)).
Proof.
  assert (Hf : forall f ps,
            List.NoDup (map pattern_name ps) ->
            List.NoDup (map pattern_name
                     (List.filter (fun p => f (pattern_name p)) ps))).
  { intros f ps. induction ps as [|p ps IH]; intros Hnd; [exact Hnd|].
    inversion Hnd as [|? ? Hnotin Hnd']; subst. simpl.
    destruct (f (pattern_name p)); [|exact (IH Hnd')].
    simpl. apply List.NoDup_cons; [|exact (IH Hnd')].
    intros Hin. apply Hnotin. apply in_map_iff in Hin as (q & Hq & Hin).
    apply filter_In in Hin as [Hin _]. apply in_map_iff. exists q. auto. }
  unfold select_patterns.
  destruct sel as [[|n names]|]; try exact catalog_names_distinct.
  apply (Hf (fun x => name_in x (n :: names))). exact catalog_names_distinct.
Qed.

Lemma apply_pattern_counts_other {U : unicode} st p k :
  k <> pattern_name p ->
  l_counts (apply_pattern st p) !! k = l_counts st !! k.
Proof.
  destruct p as [[name pattern] replacement]. unfold apply_pattern, pattern_name.
  cbn [fst]. intros Hk.
  destruct (findall pattern (l_result st)); [reflexivity|].
  cbn [l_counts]. apply lookup_insert_ne. congruence.
Qed.

(** The loop appends one summary per pattern that gets a count, in the
    order of the patterns, and touches no other count. *)
Lemma loop_summaries {U : unicode} ps :
  forall st,
    List.NoDup (map pattern_name ps) ->
    (forall p, In p ps -> l_counts st !! pattern_name p = None) ->
    l_redactions (fold_left apply_pattern ps st)
    = l_redactions st
      ++ flat_map (summary_of (l_counts (fold_left apply_pattern ps st))) ps
    /\ forall k, ~ In k (map pattern_name ps) ->
         l_counts (fold_left apply_pattern ps st) !! k = l_counts st !! k.
Proof.
  induction ps as [|p ps IH]; intros st Hnd Hfresh.
  - simpl. rewrite app_nil_r. auto.
  - inversion Hnd as [|? ? Hnotin Hnd']; subst. cbn [fold_left flat_map].
    destruct (IH (apply_pattern st p) Hnd') as [Hred Hcnt].
    { intros q Hq. rewrite apply_pattern_counts_other.
      - apply Hfresh. right. exact Hq.
      - intros Heq. apply Hnotin. rewrite <- Heq. apply in_map. exact Hq. }
    split.
    + rewrite Hred. unfold summary_of at 2. rewrite (Hcnt _ Hnotin).
      rewrite app_assoc. f_equal.
      destruct p as [[name pattern] replacement].
      unfold apply_pattern, pattern_name. cbn [fst].
      destruct (findall pattern (l_result st)) eqn:Hf.
      * pose proof (Hfresh (name, pattern, replacement) (or_introl eq_refl))
          as Hn.
        unfold pattern_name in Hn. cbn [fst] in Hn. rewrite Hn.
        rewrite app_nil_r. reflexivity.
      * cbn [l_counts l_redactions]. rewrite lookup_insert_eq. reflexivity.
    + intros k Hk. rewrite Hcnt.
      * apply apply_pattern_counts_other. intros ->. apply Hk. left. reflexivity.
      * intros Hin. apply Hk. right. exact Hin.
Qed.

(** X21: the redactions mirror the counts.  For every text and every
    configuration, [redactions] lists, in catalog order, the summary
    "<name>: <count> instance(s)" of each selected pattern that has an
    entry in [counts], and [counts] has entries for selected patterns
    only. *)
Theorem redactions_mirror_counts (U : unicode) (content : pystr) cfg :
  redactions (redact_pii content cfg)
  = flat_map (summary_of (counts (redact_pii content cfg)))
      (select_patterns
         (patterns match cfg with Some c => c | None => default_config end))
  /\ forall k,
       ~ In k (map pattern_name
                 (select_patterns
                    (patterns match cfg with
                              | Some c => c
                              | None => default_config
                              end))) ->
       counts (redact_pii content cfg) !! k = None.
Proof.
  unfold redact_pii, redact_pii_io.
  set (c := match cfg with Some c => c | None => default_config end).
  destruct (negb (enabled c)).
  - cbn [fst redactions counts]. split.
    + induction (select_patterns (patterns c)) as [|p ps IH]; [reflexivity|].
      cbn [flat_map]. unfold summary_of at 1. rewrite lookup_empty.
      exact IH.
    + intros k _. apply lookup_empty.
  - cbn [fst redactions counts].
    destruct (loop_summaries (select_patterns (patterns c))
                {| l_result := content; l_redactions := [];
                   l_counts := ∅ |} (selected_names_distinct _))
      as [Hred Hcnt].
    { intros p _. apply lookup_empty. }
    split; [exact Hred|]. intros k Hk. rewrite (Hcnt k Hk). apply lookup_empty.
Qed.

End RedactionFacts.

(* ===================================================================== *)
(** * Construction of the clients and the logger *)
(* ===================================================================== *)

Module ConfigFacts.
Import Types Net ConfigSpec.

Lemma or_str_given a b :
  or_str a b = match given a with Some s => s | None => b end.
Proof. destruct a as [[|c s]|]; reflexivity. Qed.

(** [drop_slashes] removes a run of slashes and stops at the first other
    character. *)
Lemma drop_slashes_spec l :
  exists n,
    l = repeat "/"%char n ++ drop_slashes l
    /\ match drop_slashes l with
       | c :: _ => Ascii.eqb c "/" = false
       | [] => True
       end.
Proof.
  induction l as [|c l (n & Hl & Hd)]; [exists 0; split; [reflexivity | exact I]|].
  cbn [drop_slashes]. destruct (Ascii.eqb_spec c "/") as [->|Hc].
  - exists (S n). split; [simpl; f_equal; exact Hl | exact Hd].
  - exists 0. split; [reflexivity|]. apply Ascii.eqb_neq. exact Hc.
Qed.

(** [rstrip("/")] removes trailing slashes, all of them and nothing else. *)
Lemma rstrip_slash_spec s :
  ends_with_slash (rstrip_slash s) = false
  /\ exists n,
       list_ascii_of_string s
       = list_ascii_of_string (rstrip_slash s) ++ repeat "/"%char n.
Proof.
  unfold ends_with_slash, rstrip_slash.
  rewrite list_ascii_of_string_of_list_ascii, rev_involutive.
  destruct (drop_slashes_spec (rev (list_ascii_of_string s))) as (n & Hl & Hd).
  split.
  - destruct (drop_slashes (rev (list_ascii_of_string s))); [reflexivity | exact Hd].
  - exists n. rewrite <- (rev_involutive (list_ascii_of_string s)) at 1.
    rewrite Hl at 1. rewrite rev_app_distr, rev_repeat. reflexivity.
Qed.

(** X22: [ForPrompt.__init__] either builds a client or raises
    MISSING_API_KEY with status 401, the latter exactly when neither the
    argument nor FORPROMPT_API_KEY gives a non-empty key.  The client it
    builds has that non-empty key, the other settings as given, and as
    base URL the resolved URL without its trailing slashes: it never ends
    with a slash. *)
Theorem client_init_resolves_settings environ k u tm r p :
  match Client.init environ k u tm r p with
  | Ok c =>
      Client.api_key c = resolved_key environ k
      /\ Client.api_key c <> ""
      /\ ends_with_slash (Client.base_url c) = false
      /\ (exists n,
            list_ascii_of_string (resolved_url environ u)
            = list_ascii_of_string (Client.base_url c) ++ repeat "/"%char n)
      /\ Client.timeout c = tm /\ Client.retries c = r
      /\ Client.redact_pii_enabled c = p
  | Raise e =>
      resolved_key environ k = ""
      /\ exists err,
           e = EForPrompt err /\ code err = MISSING_API_KEY
           /\ status_code err = 401%Z
  end.
Proof.
  unfold Client.init, resolved_key, resolved_url. rewrite !or_str_given.
  set (key := match given k with
              | Some s => s
              | None => environ_get environ "FORPROMPT_API_KEY" ""
              end).
  set (url := match given u with
              | Some s => s
              | None => environ_get environ "FORPROMPT_BASE_URL"
                          Client.DEFAULT_BASE_URL
              end).
  destruct (String.eqb_spec key "") as [He|Hne].
  - split; [exact He|]. eexists. repeat split.
  - cbn. destruct (rstrip_slash_spec url) as [Hend Hn]. repeat split; auto.
Qed.

(** X23: [ForPromptLogger.__init__] resolves its settings the same way,
    and the logger it builds has no active trace. *)
Theorem logger_init_resolves_settings environ k u src p tm :
  match Logger.init environ k u src p tm with
  | Ok l =>
      Logger.api_key l = resolved_key environ k
      /\ Logger.api_key l <> ""
      /\ ends_with_slash (Logger.base_url l) = false
      /\ (exists n,
            list_ascii_of_string (resolved_url environ u)
            = list_ascii_of_string (Logger.base_url l) ++ repeat "/"%char n)
      /\ Logger.source l = src /\ Logger.redact_pii_enabled l = p
      /\ Logger.timeout l = tm
      /\ Logger.is_tracing l = false
      /\ Logger._prompt_key l = None /\ Logger._version_number l = None
  | Raise e =>
      resolved_key environ k = ""
      /\ exists err,
           e = EForPrompt err /\ code err = MISSING_API_KEY
           /\ status_code err = 401%Z
  end.
Proof.
  unfold Logger.init, resolved_key, resolved_url. rewrite !or_str_given.
  set (key := match given k with
              | Some s => s
              | None => environ_get environ "FORPROMPT_API_KEY" ""
              end).
  set (url := match given u with
              | Some s => s
              | None => environ_get environ "FORPROMPT_BASE_URL"
                          Client.DEFAULT_BASE_URL
              end).
  destruct (String.eqb_spec key "") as [He|Hne].
  - split; [exact He|]. eexists. repeat split.
  - cbn. destruct (rstrip_slash_spec url) as [Hend Hn]. repeat split; auto.
Qed.

End ConfigFacts.
